(** * Access-control decision engine of MongoBot ([rbac.py])

    A shallow embedding of [RBACManager] and proofs about its permission
    precedence, its two TTL caches and its behaviour when the Slack
    directory fails.

    Conventions of the embedding.
    - Python [set[str]] fields are [gset string]; a [for] loop over a set
      visits [elements s], and every loop lemma below is proved for an
      arbitrary visiting order.
    - Python [dict] caches keyed by formatted strings are [gmap string _].
    - [datetime.now().timestamp()] is a float number of seconds; it is read
      from the environment as an exact rational.
    - Strings are byte strings; [str.lower] is modelled on ASCII letters.
    - A value passed to [update_configuration] or read from the [config]
      module is a list of strings or a boolean.
    - Every [await] on the Slack client is a call to the environment, which
      answers with a payload or raises.  Payloads are well-formed: the keys
      the code indexes with [[...]] are present. *)

From Stdlib Require Import Ascii QArith Lqa.
From stdpp Require Import base option list strings gmap.

Open Scope string_scope.
Open Scope list_scope.

(** ** Exceptions and outcomes *)

(** The code distinguishes [SlackApiError] (caught around every directory
    call) from every other exception (caught only by [except Exception]). *)
Inductive Exn :=
  | SlackApiError (msg : string)
  | OtherException (msg : string).

Definition exn_str (e : Exn) : string :=
  match e with SlackApiError m => m | OtherException m => m end.

Inductive Outcome (A : Type) :=
  | Return (a : A)
  | Raise (e : Exn).
Arguments Return {A} a.
Arguments Raise {A} e.

(** ** Payloads of the Slack Web API, as far as the code reads them *)

Record Profile := {
  profile_display_name : option string;   (* profile.get("display_name") *)
  profile_real_name : option string       (* profile.get("real_name", "") *)
}.

Record SlackUser := {
  user_ident : string;                    (* user["id"] *)
  user_deleted : bool;                    (* user.get("deleted", False) *)
  user_name : option string;              (* user.get("name") *)
  user_real_name : option string;         (* user.get("real_name", "") *)
  user_display_name : option string;      (* user.get("display_name") *)
  user_profile : option Profile           (* user.get("profile", {}) *)
}.

Record UsersListResponse := {
  ul_ok : bool;
  ul_members : list SlackUser
}.

Record LookupByEmailResponse := {
  le_ok : bool;
  le_user_id : string                     (* email_response["user"]["id"] *)
}.

Record Usergroup := {
  ug_handle : string;
  ug_id : string
}.

Record UsergroupsListResponse := {
  gl_ok : bool;
  gl_usergroups : list Usergroup
}.

Record UsergroupsUsersResponse := {
  gu_ok : bool;
  gu_users : list string
}.

Record UsersInfoResponse := {
  ui_ok : bool;
  ui_user_name : string                   (* user_info["user"]["name"] *)
}.

(** ** Calls issued to the Slack client, recorded in order *)

Inductive SlackCall :=
  | CallUsersList
  | CallUsersLookupByEmail (email : string)
  | CallUsergroupsList
  | CallUsergroupsUsersList (usergroup : string)
  | CallUsersInfo (user : string)
  | CallChatPostMessage (channel text : string).

Global Instance SlackCall_eq_dec : EqDecision SlackCall.
Proof. solve_decision. Defined.

Inductive LogRecord :=
  | LogInfo (msg : string)
  | LogError (msg : string).

Global Instance LogRecord_eq_dec : EqDecision LogRecord.
Proof. solve_decision. Defined.

(** ** Configuration values accepted by [update_configuration] *)

Inductive ConfigValue :=
  | VList (l : list string)
  | VBool (b : bool).

(** ** The environment

    Everything outside the process: the wall clock and the Slack workspace.
    Each answer may depend on how many interactions happened before
    (first argument), so the directory may change or fail at any moment. *)
Record Env := {
  clock : nat -> Q;
  strftime : Q -> string;
  repr_updates : list (string * ConfigValue) -> string;
  users_list : nat -> Outcome UsersListResponse;
  users_lookupByEmail : nat -> string -> Outcome LookupByEmailResponse;
  usergroups_list : nat -> Outcome UsergroupsListResponse;
  usergroups_users_list : nat -> string -> Outcome UsergroupsUsersResponse;
  users_info : nat -> string -> Outcome UsersInfoResponse;
  chat_postMessage : nat -> string -> string -> Outcome unit
}.

(** ** The manager object *)

Record UsernameEntry := {
  ue_user_id : string;
  ue_timestamp : Q
}.

Record MembershipEntry := {
  me_is_member : bool;
  me_timestamp : Q
}.

Record RBACManager := {
  admin_users : gset string;
  admin_groups : gset string;
  admin_operations : gset string;
  user_operations : gset string;
  self_service_operations : gset string;
  rbac_enabled : bool;
  notify_admin_on_denied : bool;
  log_access_attempts : bool;
  group_membership_cache : gmap string MembershipEntry;
  username_to_id_cache : gmap string UsernameEntry;
  cache_ttl : Q
}.

Record PermissionDecision := {
  allowed : bool;
  reason : string
}.

Global Instance PermissionDecision_eq_dec : EqDecision PermissionDecision.
Proof. solve_decision. Defined.

(** ** Program state: the manager plus the observable history *)

Record World := {
  self : RBACManager;
  tick : nat;                  (* interactions with the environment so far *)
  calls : list SlackCall;      (* Slack calls issued, oldest first *)
  logs : list LogRecord        (* log records emitted, oldest first *)
}.

Definition M (A : Type) : Type := World -> Outcome A * World.

Definition ret {A} (a : A) : M A := fun w => (Return a, w).

Definition raise {A} (e : Exn) : M A := fun w => (Raise e, w).

Definition bind {A B} (m : M A) (k : A -> M B) : M B :=
  fun w =>
    match m w with
    | (Return a, w') => k a w'
    | (Raise e, w') => (Raise e, w')
    end.

Notation "'let!' x ':=' m 'in' k" := (bind m (fun x => k))
  (at level 10, x name, m at level 100, k at level 200).
Notation "'run!' m 'in' k" := (bind m (fun _ => k))
  (at level 10, m at level 100, k at level 200).

(** [try: m  except SlackApiError as e: h e] *)
Definition except_SlackApiError {A} (m : M A) (h : string -> M A) : M A :=
  fun w =>
    match m w with
    | (Raise (SlackApiError msg), w') => h msg w'
    | r => r
    end.

(** [try: m  except Exception as e: h e] *)
Definition except_Exception {A} (m : M A) (h : Exn -> M A) : M A :=
  fun w =>
    match m w with
    | (Raise e, w') => h e w'
    | r => r
    end.

Definition get_self : M RBACManager := fun w => (Return (self w), w).

Definition set_self (m : RBACManager) : M unit :=
  fun w => (Return tt,
            {| self := m; tick := tick w; calls := calls w; logs := logs w |}).

Definition emit (r : LogRecord) : M unit :=
  fun w => (Return tt,
            {| self := self w; tick := tick w; calls := calls w;
               logs := logs w ++ [r] |}).

Definition logger_info (msg : string) : M unit := emit (LogInfo msg).
Definition logger_error (msg : string) : M unit := emit (LogError msg).

(** ** String helpers ([str] methods used by the code) *)

(** [s.startswith(c)] for a one-character prefix *)
Definition startswith (c : ascii) (s : string) : bool :=
  match s with
  | String a _ => bool_decide (a = c)
  | EmptyString => false
  end.

(** [s.lstrip(c)] for a one-character strip set *)
Fixpoint lstrip (c : ascii) (s : string) : string :=
  match s with
  | String a s' => if bool_decide (a = c) then lstrip c s' else s
  | EmptyString => EmptyString
  end.

(** [c in s] for a one-character needle *)
Fixpoint contains (c : ascii) (s : string) : bool :=
  match s with
  | String a s' => bool_decide (a = c) || contains c s'
  | EmptyString => false
  end.

Definition lower_ascii (a : ascii) : ascii :=
  let n := nat_of_ascii a in
  if (65 <=? n)%nat && (n <=? 90)%nat then ascii_of_nat (n + 32) else a.

(** [s.lower()] *)
Fixpoint lower (s : string) : string :=
  match s with
  | String a s' => String (lower_ascii a) (lower s')
  | EmptyString => EmptyString
  end.

(** The shape test of [resolve_admin_entry_to_user_id]: an entry that
    starts with [U] and has eleven characters is taken for a user id. *)
Definition canonical_id (admin_entry : string) : bool :=
  startswith "U" admin_entry && (String.length admin_entry =? 11)%nat.

Definition newline : string := String (ascii_of_nat 10) EmptyString.

(** [x < y] on timestamps *)
Definition Qltb (x y : Q) : bool := negb (Qle_bool y x).

(** Truth value of an [Optional[str]]: [None] and the empty string are
    false. *)
Definition truthy (o : option string) : bool :=
  match o with
  | Some s => negb (bool_decide (s = ""))
  | None => false
  end.

(** ** Field updates of the manager *)

Definition set_username_to_id_cache
    (c : gmap string UsernameEntry) (m : RBACManager) : RBACManager :=
  {| admin_users := admin_users m; admin_groups := admin_groups m;
     admin_operations := admin_operations m;
     user_operations := user_operations m;
     self_service_operations := self_service_operations m;
     rbac_enabled := rbac_enabled m;
     notify_admin_on_denied := notify_admin_on_denied m;
     log_access_attempts := log_access_attempts m;
     group_membership_cache := group_membership_cache m;
     username_to_id_cache := c;
     cache_ttl := cache_ttl m |}.

Definition set_group_membership_cache
    (c : gmap string MembershipEntry) (m : RBACManager) : RBACManager :=
  {| admin_users := admin_users m; admin_groups := admin_groups m;
     admin_operations := admin_operations m;
     user_operations := user_operations m;
     self_service_operations := self_service_operations m;
     rbac_enabled := rbac_enabled m;
     notify_admin_on_denied := notify_admin_on_denied m;
     log_access_attempts := log_access_attempts m;
     group_membership_cache := c;
     username_to_id_cache := username_to_id_cache m;
     cache_ttl := cache_ttl m |}.

Definition set_admin_users (v : gset string) (m : RBACManager)
    : RBACManager :=
  {| admin_users := v; admin_groups := admin_groups m;
     admin_operations := admin_operations m;
     user_operations := user_operations m;
     self_service_operations := self_service_operations m;
     rbac_enabled := rbac_enabled m;
     notify_admin_on_denied := notify_admin_on_denied m;
     log_access_attempts := log_access_attempts m;
     group_membership_cache := group_membership_cache m;
     username_to_id_cache := username_to_id_cache m;
     cache_ttl := cache_ttl m |}.

Definition set_admin_groups (v : gset string) (m : RBACManager)
    : RBACManager :=
  {| admin_users := admin_users m; admin_groups := v;
     admin_operations := admin_operations m;
     user_operations := user_operations m;
     self_service_operations := self_service_operations m;
     rbac_enabled := rbac_enabled m;
     notify_admin_on_denied := notify_admin_on_denied m;
     log_access_attempts := log_access_attempts m;
     group_membership_cache := group_membership_cache m;
     username_to_id_cache := username_to_id_cache m;
     cache_ttl := cache_ttl m |}.

Definition set_admin_operations (v : gset string) (m : RBACManager)
    : RBACManager :=
  {| admin_users := admin_users m; admin_groups := admin_groups m;
     admin_operations := v;
     user_operations := user_operations m;
     self_service_operations := self_service_operations m;
     rbac_enabled := rbac_enabled m;
     notify_admin_on_denied := notify_admin_on_denied m;
     log_access_attempts := log_access_attempts m;
     group_membership_cache := group_membership_cache m;
     username_to_id_cache := username_to_id_cache m;
     cache_ttl := cache_ttl m |}.

Definition set_user_operations (v : gset string) (m : RBACManager)
    : RBACManager :=
  {| admin_users := admin_users m; admin_groups := admin_groups m;
     admin_operations := admin_operations m;
     user_operations := v;
     self_service_operations := self_service_operations m;
     rbac_enabled := rbac_enabled m;
     notify_admin_on_denied := notify_admin_on_denied m;
     log_access_attempts := log_access_attempts m;
     group_membership_cache := group_membership_cache m;
     username_to_id_cache := username_to_id_cache m;
     cache_ttl := cache_ttl m |}.

Definition set_rbac_enabled (v : bool) (m : RBACManager) : RBACManager :=
  {| admin_users := admin_users m; admin_groups := admin_groups m;
     admin_operations := admin_operations m;
     user_operations := user_operations m;
     self_service_operations := self_service_operations m;
     rbac_enabled := v;
     notify_admin_on_denied := notify_admin_on_denied m;
     log_access_attempts := log_access_attempts m;
     group_membership_cache := group_membership_cache m;
     username_to_id_cache := username_to_id_cache m;
     cache_ttl := cache_ttl m |}.

(** [set(value)]: a list becomes a set, a [bool] is not iterable. *)
Definition to_set (value : ConfigValue) : M (gset string) :=
  match value with
  | VList l => ret (list_to_set l)
  | VBool _ => raise (OtherException "TypeError: 'bool' object is not iterable")
  end.

(** The truth value the stored [rbac_enabled] has in [if not ...]. *)
Definition to_flag (value : ConfigValue) : bool :=
  match value with
  | VBool b => b
  | VList l => negb (bool_decide (l = []))
  end.

Section Engine.

Variable env : Env.

(** [datetime.now().timestamp()] *)
Definition now_timestamp : M Q :=
  fun w => (Return (clock env (tick w)),
            {| self := self w; tick := S (tick w); calls := calls w;
               logs := logs w |}).

(** One awaited call on the Slack client. *)
Definition slack {A} (c : SlackCall) (answer : nat -> Outcome A) : M A :=
  fun w => (answer (tick w),
            {| self := self w; tick := S (tick w); calls := calls w ++ [c];
               logs := logs w |}).

(** *** [resolve_username_to_user_id] *)

Definition empty_profile : Profile :=
  {| profile_display_name := None; profile_real_name := None |}.

(** The five-way [or] of the username formats. *)
Definition username_matches (user : SlackUser) (username : string) : bool :=
  let profile := default empty_profile (user_profile user) in
  bool_decide (user_name user = Some username)
  || bool_decide (lower (default "" (user_real_name user)) = lower username)
  || bool_decide (user_display_name user = Some username)
  || bool_decide (profile_display_name profile = Some username)
  || bool_decide (lower (default "" (profile_real_name profile))
                  = lower username).

(** The [for user in response["members"]] loop: the id of the first
    member that is not deleted and matches. *)
Fixpoint first_matching_user (members : list SlackUser) (username : string)
    : option string :=
  match members with
  | [] => None
  | user :: rest =>
      if negb (user_deleted user) && username_matches user username
      then Some (user_ident user)
      else first_matching_user rest username
  end.

Definition resolve_username_to_user_id (username : string)
    : M (option string) :=
  except_SlackApiError
    (let! response := slack CallUsersList (users_list env) in
     match (if ul_ok response
            then first_matching_user (ul_members response) username
            else None) with
     | Some uid => ret (Some uid)
     | None =>
         if contains "@" username then
           except_SlackApiError
             (let! email_response :=
                slack (CallUsersLookupByEmail username)
                      (fun n => users_lookupByEmail env n username) in
              if le_ok email_response
              then ret (Some (le_user_id email_response))
              else ret None)
             (fun _ => ret None)
         else ret None
     end)
    (fun msg =>
       run! logger_error ("Error resolving username " +:+ username +:+ ": "
                          +:+ msg) in
       ret None).

(** *** [resolve_admin_entry_to_user_id] *)

Definition username_cache_key (username : string) : string :=
  "username:" +:+ username.

(** The "check cache first" block: the cached id when the entry is still
    within the TTL. *)
Definition cached_user_id (cache_key : string) : M (option string) :=
  let! m := get_self in
  match username_to_id_cache m !! cache_key with
  | Some cached_data =>
      let! now := now_timestamp in
      if Qltb (now - ue_timestamp cached_data) (cache_ttl m)
      then ret (Some (ue_user_id cached_data))
      else ret None
  | None => ret None
  end.

(** The "cache the result" block, guarded by [if user_id:]. *)
Definition cache_user_id (cache_key : string) (user_id : option string)
    : M unit :=
  match user_id with
  | Some uid =>
      if truthy user_id then
        let! stamp := now_timestamp in
        let! m := get_self in
        set_self (set_username_to_id_cache
                    (<[cache_key :=
                         {| ue_user_id := uid; ue_timestamp := stamp |}]>
                       (username_to_id_cache m)) m)
      else ret tt
  | None => ret tt
  end.

Definition resolve_admin_entry_to_user_id (admin_entry : string)
    : M (option string) :=
  if canonical_id admin_entry
  then ret (Some admin_entry)
  else
    let username := lstrip "@" admin_entry in
    let cache_key := username_cache_key username in
    let! hit := cached_user_id cache_key in
    match hit with
    | Some cached_id => ret (Some cached_id)
    | None =>
        let! user_id := resolve_username_to_user_id username in
        run! cache_user_id cache_key user_id in
        ret user_id
    end.

(** *** [is_user_in_group] *)

Definition group_cache_key (user_id group_name : string) : string :=
  user_id +:+ ":" +:+ group_name.

(** The "cache the result" block of [is_user_in_group]. *)
Definition cache_membership (cache_key : string) (is_member : bool)
    : M unit :=
  let! stamp := now_timestamp in
  let! m := get_self in
  set_self (set_group_membership_cache
              (<[cache_key :=
                   {| me_is_member := is_member; me_timestamp := stamp |}]>
                 (group_membership_cache m)) m).

(** The [for usergroup in response["usergroups"]] loop; [Some b] when the
    loop body executed [return b]. *)
Fixpoint usergroups_loop (usergroups : list Usergroup)
    (user_id group_name cache_key : string) : M (option bool) :=
  match usergroups with
  | [] => ret None
  | usergroup :: rest =>
      if bool_decide (ug_handle usergroup = group_name) then
        let! members_response :=
          slack (CallUsergroupsUsersList (ug_id usergroup))
                (fun n => usergroups_users_list env n (ug_id usergroup)) in
        if gu_ok members_response then
          let is_member := bool_decide (user_id ∈ gu_users members_response) in
          run! cache_membership cache_key is_member in
          ret (Some is_member)
        else usergroups_loop rest user_id group_name cache_key
      else usergroups_loop rest user_id group_name cache_key
  end.

(** The "check cache" block of [is_user_in_group]. *)
Definition cached_membership (cache_key : string) : M (option bool) :=
  let! m := get_self in
  match group_membership_cache m !! cache_key with
  | Some cached_data =>
      let! now := now_timestamp in
      if Qltb (now - me_timestamp cached_data) (cache_ttl m)
      then ret (Some (me_is_member cached_data))
      else ret None
  | None => ret None
  end.

(** The [try] block of [is_user_in_group] with its handler. *)
Definition query_membership (user_id group_name cache_key : string)
    : M (option bool) :=
  except_SlackApiError
    (let! response := slack CallUsergroupsList (usergroups_list env) in
     if gl_ok response
     then usergroups_loop (gl_usergroups response) user_id group_name
                          cache_key
     else ret None)
    (fun msg =>
       run! logger_error ("Error checking group membership: " +:+ msg) in
       ret None).

Definition is_user_in_group (user_id group_name : string) : M bool :=
  let cache_key := group_cache_key user_id group_name in
  let! hit := cached_membership cache_key in
  match hit with
  | Some is_member => ret is_member
  | None =>
      let! returned := query_membership user_id group_name cache_key in
      ret (default false returned)
  end.

(** *** [is_user_admin] *)

(** [for admin_entry in self.admin_users: if resolve(...) == user_id] *)
Fixpoint admin_entries_loop (entries : list string) (user_id : string)
    : M bool :=
  match entries with
  | [] => ret false
  | admin_entry :: rest =>
      let! resolved := resolve_admin_entry_to_user_id admin_entry in
      if bool_decide (resolved = Some user_id) then ret true
      else admin_entries_loop rest user_id
  end.

(** [for group in self.admin_groups: if is_user_in_group(user_id, group)] *)
Fixpoint admin_groups_loop (groups : list string) (user_id : string)
    : M bool :=
  match groups with
  | [] => ret false
  | group :: rest =>
      let! member := is_user_in_group user_id group in
      if member then ret true else admin_groups_loop rest user_id
  end.

Definition is_user_admin (user_id : string) : M bool :=
  let! m := get_self in
  if bool_decide (user_id ∈ admin_users m) then ret true
  else
    let! by_entry := admin_entries_loop (elements (admin_users m)) user_id in
    if by_entry then ret true
    else
      let! m' := get_self in
      admin_groups_loop (elements (admin_groups m')) user_id.

(** *** [notify_admin_of_denied_access] *)

Definition denied_message (username user_id operation time : string)
    : string :=
  "üö® **Access Denied Alert**" +:+ newline +:+ newline
  +:+ "User: @" +:+ username +:+ " (" +:+ user_id +:+ ")" +:+ newline
  +:+ "Attempted Operation: `" +:+ operation +:+ "`" +:+ newline
  +:+ "Time: " +:+ time +:+ newline +:+ newline
  +:+ "This user attempted to perform an admin-only operation.".

(** [for admin_user in self.admin_users: try: chat_postMessage ...] *)
Fixpoint notify_loop (admins : list string) (message : string) : M unit :=
  match admins with
  | [] => ret tt
  | admin_user :: rest =>
      run! except_SlackApiError
             (slack (CallChatPostMessage admin_user message)
                    (fun n => chat_postMessage env n admin_user message))
             (fun msg =>
                logger_error ("Error notifying admin " +:+ admin_user +:+ ": "
                              +:+ msg)) in
      notify_loop rest message
  end.

Definition notify_admin_of_denied_access (user_id operation : string)
    : M unit :=
  except_Exception
    (let! user_info :=
       slack (CallUsersInfo user_id) (fun n => users_info env n user_id) in
     let username :=
       if ui_ok user_info then ui_user_name user_info else user_id in
     let! stamp := now_timestamp in
     let message :=
       denied_message username user_id operation (strftime env stamp) in
     let! m := get_self in
     notify_loop (elements (admin_users m)) message)
    (fun e => logger_error ("Error in admin notification: " +:+ exn_str e)).

(** *** [check_user_permission] *)

Definition decision (a : bool) (r : string) : PermissionDecision :=
  {| allowed := a; reason := r |}.

(** [f"Permission check: User {user_id} attempting {operation}"] *)
Definition access_attempt (user_id operation : string) : string :=
  "Permission check: User " +:+ user_id +:+ " attempting " +:+ operation.

Definition check_user_permission
    (user_id operation : string) (target_user : option string)
    : M PermissionDecision :=
  let! m := get_self in
  if negb (rbac_enabled m) then ret (decision true "RBAC disabled")
  else
    run! (if log_access_attempts m
          then logger_info (access_attempt user_id operation)
          else ret tt) in
    if bool_decide (operation ∈ self_service_operations m)
       && bool_decide (target_user = Some user_id)
    then ret (decision true "Self-service operation")
    else
      let! is_admin := is_user_admin user_id in
      if is_admin then ret (decision true "Admin user")
      else
        let! m' := get_self in
        if bool_decide (operation ∈ user_operations m')
        then ret (decision true "User operation")
        else if bool_decide (operation ∈ admin_operations m') then
          run! (if notify_admin_on_denied m'
                then notify_admin_of_denied_access user_id operation
                else ret tt) in
          ret (decision false "Admin privileges required")
        else ret (decision false "Unknown operation").

(** *** [clear_cache] and [update_configuration] *)

Definition clear_cache : M unit :=
  let! m := get_self in
  run! set_self (set_group_membership_cache ∅ m) in
  logger_info "RBAC cache cleared".

(** [for key, value in config_updates.items()] *)
Fixpoint updates_loop (items : list (string * ConfigValue)) : M unit :=
  match items with
  | [] => ret tt
  | (key, value) :: rest =>
      let! m := get_self in
      run! (if bool_decide (key = "admin_users") then
              let! v := to_set value in set_self (set_admin_users v m)
            else if bool_decide (key = "admin_groups") then
              let! v := to_set value in set_self (set_admin_groups v m)
            else if bool_decide (key = "admin_operations") then
              let! v := to_set value in set_self (set_admin_operations v m)
            else if bool_decide (key = "user_operations") then
              let! v := to_set value in set_self (set_user_operations v m)
            else if bool_decide (key = "rbac_enabled") then
              set_self (set_rbac_enabled (to_flag value) m)
            else ret tt) in
      updates_loop rest
  end.

Definition update_configuration (config_updates : list (string * ConfigValue))
    : M unit :=
  run! updates_loop config_updates in
  run! logger_info ("RBAC configuration updated: "
                    +:+ repr_updates env config_updates) in
  let! m := get_self in
  set_self (set_group_membership_cache ∅ m).

End Engine.

(** * Specification-level notions *)

(** ** Stability: every run of [m] moves the world along [R] *)

Definition stable {A} (R : relation World) (m : M A) : Prop :=
  forall w, R w (m w).2.

(** ** Exceptions a computation may raise *)

Definition raises_within {A} (E : Exn -> Prop) (m : M A) : Prop :=
  forall w e, (m w).1 = Raise e -> E e.

Definition never : Exn -> Prop := fun _ => False.

Definition is_SlackApiError (e : Exn) : Prop :=
  match e with SlackApiError _ => True | OtherException _ => False end.

(** The manager with both caches erased: what configuration it carries. *)
Definition policy (m : RBACManager) : RBACManager :=
  set_group_membership_cache ∅ (set_username_to_id_cache ∅ m).

Definition is_error (r : LogRecord) : Prop :=
  match r with LogError _ => True | LogInfo _ => False end.

(** How the world may change while identities are resolved: the policy is
    kept, Slack calls are only appended, and only error records are
    logged. *)
Definition evolves (w w' : World) : Prop :=
  policy (self w) = policy (self w')
  /\ calls w `prefix_of` calls w'
  /\ exists l, logs w' = logs w ++ l /\ Forall is_error l.

(** * The precedence rules as the specification words them *)

(** Rules (1)-(6), first match wins; [is_admin] is the verdict of the admin
    check, consulted by rule (3) only. *)
Definition first_matching_rule (m : RBACManager)
    (identity operation : string) (target : option string) (is_admin : bool)
    : PermissionDecision :=
  if negb (rbac_enabled m) then
    {| allowed := true; reason := "RBAC disabled" |}
  else if bool_decide (operation ∈ self_service_operations m
                       /\ target = Some identity) then
    {| allowed := true; reason := "Self-service operation" |}
  else if is_admin then
    {| allowed := true; reason := "Admin user" |}
  else if bool_decide (operation ∈ user_operations m) then
    {| allowed := true; reason := "User operation" |}
  else if bool_decide (operation ∈ admin_operations m) then
    {| allowed := false; reason := "Admin privileges required" |}
  else
    {| allowed := false; reason := "Unknown operation" |}.

(** Rule (1) or rule (2) applies: the decision is taken before the admin
    check. *)
Definition settled_early (m : RBACManager)
    (identity operation : string) (target : option string) : bool :=
  negb (rbac_enabled m)
  || bool_decide (operation ∈ self_service_operations m
                  /\ target = Some identity).

(** The world in which the admin check starts: the access attempt has been
    logged if logging is on. *)
Definition attempt_logged (identity operation : string) (w : World) : World :=
  if log_access_attempts (self w)
  then (logger_info (access_attempt identity operation) w).2
  else w.

(** * The admin check as the specification words it *)

(** [step] is run on the items of [items] one after the other, from [w],
    and every run returns a value that [accept] turns down: the world
    after the last run.  [None] when some run raises or is accepted. *)
Fixpoint turned_down {A} (step : string -> M A) (accept : A -> bool)
    (items : list string) (w : World) : option World :=
  match items with
  | [] => Some w
  | item :: rest =>
      match step item w with
      | (Return a, w') =>
          if accept a then None else turned_down step accept rest w'
      | (Raise _, _) => None
      end
  end.

(** [item] is the first of [items] that is accepted: the items before it
    are turned down, and the run on [item], started in the world they lead
    to, returns an accepted value and ends in [w']. *)
Definition first_accepted {A} (step : string -> M A) (accept : A -> bool)
    (items : list string) (w : World) (item : string) (w' : World) : Prop :=
  exists pre post wa a,
    items = pre ++ item :: post
    /\ turned_down step accept pre w = Some wa
    /\ step item wa = (Return a, w')
    /\ accept a = true.

(** "The entry resolves to the identity." *)
Definition resolves_to (identity : string) (resolved : option string)
    : bool :=
  bool_decide (resolved = Some identity).

(** "The identity is a member of the group." *)
Definition is_member (member : bool) : bool := member.

(** The identity is admin, the check starting in [w] and ending in [w']:
    it is directly listed in [admin_users]; or some entry of [admin_users]
    resolves to it; or, no entry resolving to it, it is a member of some
    admin group. *)
Definition admin_by (env : Env) (m : RBACManager) (identity : string)
    (w w' : World) : Prop :=
  ((identity ∈ admin_users m) /\ w' = w)
  \/ ((identity ∉ admin_users m)
      /\ exists entry,
           entry ∈ admin_users m
           /\ first_accepted (resolve_admin_entry_to_user_id env)
                (resolves_to identity) (elements (admin_users m))
                w entry w')
  \/ ((identity ∉ admin_users m)
      /\ exists w1 group,
           turned_down (resolve_admin_entry_to_user_id env)
             (resolves_to identity) (elements (admin_users m)) w = Some w1
           /\ group ∈ admin_groups m
           /\ first_accepted (is_user_in_group env identity) is_member
                (elements (admin_groups m)) w1 group w').

(** The identity is not admin: it is not listed, every entry of
    [admin_users] resolves to nothing or to another identity, and it is a
    member of no admin group. *)
Definition not_admin_by (env : Env) (m : RBACManager) (identity : string)
    (w w' : World) : Prop :=
  (identity ∉ admin_users m)
  /\ exists w1,
       turned_down (resolve_admin_entry_to_user_id env)
         (resolves_to identity) (elements (admin_users m)) w = Some w1
       /\ turned_down (is_user_in_group env identity) is_member
            (elements (admin_groups m)) w1 = Some w'.

(** * Scenarios

    Concrete workspaces and managers on which the statements below are
    exercised. *)

Definition no_such_user : Exn := SlackApiError "users_not_found".

Definition alice : SlackUser :=
  {| user_ident := "U2"; user_deleted := false; user_name := Some "alice";
     user_real_name := None; user_display_name := None;
     user_profile := None |}.

(** A healthy workspace: one user [alice] with id [U2], no user groups; the
    clock advances one second per interaction. *)
Definition healthy_env : Env :=
  {| clock := fun n => inject_Z (Z.of_nat n);
     strftime := fun _ => "2024-01-01 00:00:00";
     repr_updates := fun _ => "{...}";
     users_list := fun _ => Return {| ul_ok := true; ul_members := [alice] |};
     users_lookupByEmail := fun _ _ => Raise no_such_user;
     usergroups_list :=
       fun _ => Return {| gl_ok := true; gl_usergroups := [] |};
     usergroups_users_list :=
       fun _ _ => Return {| gu_ok := true; gu_users := [] |};
     users_info :=
       fun _ u => Return {| ui_ok := true; ui_user_name := "someone" |};
     chat_postMessage := fun _ _ _ => Return tt |}.

(** The manager of the specification's concrete scenarios. *)
Definition scenario_manager : RBACManager :=
  {| admin_users := {["@alice"]};
     admin_groups := ∅;
     admin_operations := {["create_cluster"]};
     user_operations := {["list_clusters"]};
     self_service_operations := {["add_ip_whitelist"]};
     rbac_enabled := true;
     notify_admin_on_denied := true;
     log_access_attempts := true;
     group_membership_cache := ∅;
     username_to_id_cache := ∅;
     cache_ttl := 300 |}.

Definition fresh_world (m : RBACManager) : World :=
  {| self := m; tick := 0; calls := []; logs := [] |}.

Definition scenario_world : World := fresh_world scenario_manager.

(** ** Counting invocations of the notification path

    [users_info] is called by [notify_admin_of_denied_access] only, once
    per invocation and before anything else; the messages to the admins
    are [chat_postMessage] calls. *)




(** Rules (3)-(6) alone: what decides once rules (1) and (2) are out. *)
Definition rules_after_self_service (m : RBACManager) (operation : string)
    (is_admin : bool) : PermissionDecision :=
  if is_admin then
    {| allowed := true; reason := "Admin user" |}
  else if bool_decide (operation ∈ user_operations m) then
    {| allowed := true; reason := "User operation" |}
  else if bool_decide (operation ∈ admin_operations m) then
    {| allowed := false; reason := "Admin privileges required" |}
  else
    {| allowed := false; reason := "Unknown operation" |}.

(** ** Ways the directory may fail *)

(** An endpoint that fails with [SlackApiError] only. *)
Definition SlackApiError_only {A} (answer : nat -> Outcome A) : Prop :=
  forall n e, answer n = Raise e -> is_SlackApiError e.

(** The four directory endpoints used to resolve identities fail with
    [SlackApiError] only. *)
Definition directory_fails_cleanly (env : Env) : Prop :=
  SlackApiError_only (users_list env)
  /\ (forall email,
        SlackApiError_only (fun n => users_lookupByEmail env n email))
  /\ SlackApiError_only (usergroups_list env)
  /\ (forall g, SlackApiError_only (fun n => usergroups_users_list env n g)).

(** A workspace whose [users.list] times out: the client raises an
    exception that is not a [SlackApiError]. *)
Definition timeout_env : Env :=
  {| clock := fun n => inject_Z (Z.of_nat n);
     strftime := fun _ => "2024-01-01 00:00:00";
     repr_updates := fun _ => "{...}";
     users_list := fun _ => Raise (OtherException "TimeoutError");
     users_lookupByEmail := fun _ _ => Raise no_such_user;
     usergroups_list :=
       fun _ => Return {| gl_ok := true; gl_usergroups := [] |};
     usergroups_users_list :=
       fun _ _ => Return {| gu_ok := true; gu_users := [] |};
     users_info :=
       fun _ u => Return {| ui_ok := true; ui_user_name := "someone" |};
     chat_postMessage := fun _ _ _ => Return tt |}.

(** The scenario manager with RBAC switched off. *)
Definition disabled_manager : RBACManager :=
  set_rbac_enabled false scenario_manager.

Definition disabled_world : World := fresh_world disabled_manager.

(** An endpoint that raises [SlackApiError] on every call. *)
Definition always_SlackApiError {A} (answer : nat -> Outcome A) : Prop :=
  forall n, exists msg, answer n = Raise (SlackApiError msg).

(** Total directory outage: every directory endpoint raises
    [SlackApiError] on every call. *)
Definition directory_outage (env : Env) : Prop :=
  always_SlackApiError (users_list env)
  /\ (forall email,
        always_SlackApiError (fun n => users_lookupByEmail env n email))
  /\ always_SlackApiError (usergroups_list env)
  /\ (forall g, always_SlackApiError (fun n => usergroups_users_list env n g))
  /\ (forall u, always_SlackApiError (fun n => users_info env n u)).

Definition service_unavailable : Exn := SlackApiError "service_unavailable".

Definition outage_env : Env :=
  {| clock := fun n => inject_Z (Z.of_nat n);
     strftime := fun _ => "2024-01-01 00:00:00";
     repr_updates := fun _ => "{...}";
     users_list := fun _ => Raise service_unavailable;
     users_lookupByEmail := fun _ _ => Raise service_unavailable;
     usergroups_list := fun _ => Raise service_unavailable;
     usergroups_users_list := fun _ _ => Raise service_unavailable;
     users_info := fun _ _ => Raise service_unavailable;
     chat_postMessage := fun _ _ _ => Raise service_unavailable |}.

(** A manager whose admin list names the canonical id [U0000000001] and
    whose admin group is [dba]. *)
Definition listed_manager : RBACManager :=
  set_admin_groups {["dba"]}
    (set_admin_users {["U0000000001"; "@alice"]} scenario_manager).

Definition listed_world : World := fresh_world listed_manager.

(** ** Cache entries that vouch for an identity *)

(** The TTL test of both cache blocks: an entry stamped [stamp], read at
    interaction [n], is served. *)
Definition within_ttl (env : Env) (m : RBACManager) (stamp : Q) (n : nat)
    : bool :=
  Qltb (clock env n - stamp) (cache_ttl m).

(** What the "check cache first" block of
    [resolve_admin_entry_to_user_id] serves at interaction [n]. *)
Definition served_user_id (env : Env) (m : RBACManager) (cache_key : string)
    (n : nat) : option string :=
  match username_to_id_cache m !! cache_key with
  | Some cached_data =>
      if within_ttl env m (ue_timestamp cached_data) n
      then Some (ue_user_id cached_data) else None
  | None => None
  end.

(** What the "check cache" block of [is_user_in_group] serves at
    interaction [n]. *)
Definition served_membership (env : Env) (m : RBACManager)
    (cache_key : string) (n : nat) : option bool :=
  match group_membership_cache m !! cache_key with
  | Some cached_data =>
      if within_ttl env m (me_timestamp cached_data) n
      then Some (me_is_member cached_data) else None
  | None => None
  end.

(** From the world [w] on, an entry stamped [stamp] is served at some
    reading of the clock, respectively at every reading. *)
Definition may_be_served (env : Env) (w : World) (stamp : Q) : Prop :=
  exists n, tick w <= n /\ within_ttl env (self w) stamp n = true.

Definition always_served (env : Env) (w : World) (stamp : Q) : Prop :=
  forall n, tick w <= n -> within_ttl env (self w) stamp n = true.

(** A resolution cached for an entry of [admin_users] names the identity,
    and its age is [fresh]. *)
Definition resolution_cached (w : World) (identity : string)
    (fresh : Q -> Prop) : Prop :=
  exists entry cached_data,
    entry ∈ admin_users (self w)
    /\ canonical_id entry = false
    /\ username_to_id_cache (self w)
         !! username_cache_key (lstrip "@" entry) = Some cached_data
    /\ ue_user_id cached_data = identity
    /\ fresh (ue_timestamp cached_data).

(** A positive membership of the identity in an admin group is cached,
    and its age is [fresh]. *)
Definition membership_cached (w : World) (identity : string)
    (fresh : Q -> Prop) : Prop :=
  exists group cached_data,
    group ∈ admin_groups (self w)
    /\ group_membership_cache (self w)
         !! group_cache_key identity group = Some cached_data
    /\ me_is_member cached_data = true
    /\ fresh (me_timestamp cached_data).

(** Some cache entry vouches for the identity and may still be served. *)
Definition vouched_for (env : Env) (w : World) (identity : string) : Prop :=
  resolution_cached w identity (may_be_served env w)
  \/ membership_cached w identity (may_be_served env w).

(** Some cache entry vouches for the identity and is served whenever it
    is read. *)
Definition firmly_vouched_for (env : Env) (w : World) (identity : string)
    : Prop :=
  resolution_cached w identity (always_served env w)
  \/ membership_cached w identity (always_served env w).

(** The scenario manager with the admin list emptied and [dba] as its
    admin group. *)
Definition group_manager : RBACManager :=
  set_admin_groups {["dba"]} (set_admin_users ∅ scenario_manager).

Definition group_world : World := fresh_world group_manager.

(** The world after [resolve_admin_entry_to_user_id] has run on
    [scenario_world] once for [@alice] (found) and once for [@ghost] (not
    found). *)
Definition alice_resolved_world : World :=
  (resolve_admin_entry_to_user_id healthy_env "@alice" scenario_world).2.

Definition ghost_resolved_world : World :=
  (resolve_admin_entry_to_user_id healthy_env "@ghost" scenario_world).2.

(** The world after [U2] has been granted [create_cluster] once: the
    resolution of [@alice] is in the username cache. *)
Definition alice_checked_world : World :=
  (check_user_permission healthy_env "U2" "create_cluster" None
     scenario_world).2.

(** The world after one membership test of [U1] in the unknown group
    [dba]. *)
Definition dba_tested_world : World :=
  (is_user_in_group healthy_env "U1" "dba" scenario_world).2.

Definition no_handle (g : string) (usergroups : list Usergroup) : Prop :=
  Forall (fun usergroup => ug_handle usergroup <> g) usergroups.

(** * The rest of [RBACManager] *)

(** ** [get_operation_category] *)

Definition get_operation_category (m : RBACManager) (operation : string)
    : string :=
  if bool_decide (operation ∈ admin_operations m) then "admin"
  else if bool_decide (operation ∈ user_operations m) then "user"
  else if bool_decide (operation ∈ self_service_operations m)
  then "self_service"
  else "unknown".

(** ** [load_configuration] and [__init__] *)

Definition set_self_service_operations (v : gset string) (m : RBACManager)
    : RBACManager :=
  {| admin_users := admin_users m; admin_groups := admin_groups m;
     admin_operations := admin_operations m;
     user_operations := user_operations m;
     self_service_operations := v;
     rbac_enabled := rbac_enabled m;
     notify_admin_on_denied := notify_admin_on_denied m;
     log_access_attempts := log_access_attempts m;
     group_membership_cache := group_membership_cache m;
     username_to_id_cache := username_to_id_cache m;
     cache_ttl := cache_ttl m |}.

Definition set_notify_admin_on_denied (v : bool) (m : RBACManager)
    : RBACManager :=
  {| admin_users := admin_users m; admin_groups := admin_groups m;
     admin_operations := admin_operations m;
     user_operations := user_operations m;
     self_service_operations := self_service_operations m;
     rbac_enabled := rbac_enabled m;
     notify_admin_on_denied := v;
     log_access_attempts := log_access_attempts m;
     group_membership_cache := group_membership_cache m;
     username_to_id_cache := username_to_id_cache m;
     cache_ttl := cache_ttl m |}.

Definition set_log_access_attempts (v : bool) (m : RBACManager)
    : RBACManager :=
  {| admin_users := admin_users m; admin_groups := admin_groups m;
     admin_operations := admin_operations m;
     user_operations := user_operations m;
     self_service_operations := self_service_operations m;
     rbac_enabled := rbac_enabled m;
     notify_admin_on_denied := notify_admin_on_denied m;
     log_access_attempts := v;
     group_membership_cache := group_membership_cache m;
     username_to_id_cache := username_to_id_cache m;
     cache_ttl := cache_ttl m |}.

(** The attributes [load_configuration] reads from the [config] module
    with [getattr(config, name, default)]; [None] is an absent
    attribute. *)
Record ConfigAttrs := {
  RBAC_ENABLED : option ConfigValue;
  ADMIN_USERS : option ConfigValue;
  ADMIN_GROUPS : option ConfigValue;
  ADMIN_OPERATIONS : option ConfigValue;
  USER_OPERATIONS : option ConfigValue;
  SELF_SERVICE_OPERATIONS : option ConfigValue;
  RBAC_NOTIFY_ADMIN_ON_DENIED : option ConfigValue;
  RBAC_LOG_ACCESS_ATTEMPTS : option ConfigValue
}.

(** What [import config] does. *)
Inductive ConfigImport :=
  | ConfigModule (attrs : ConfigAttrs)   (* the module is imported *)
  | ConfigMissing                        (* ImportError *)
  | ConfigBroken (msg : string).         (* any other exception *)

(** [s.split(c)] for a one-character separator *)
Fixpoint split (c : ascii) (s : string) : list string :=
  match s with
  | EmptyString => [EmptyString]
  | String a s' =>
      if bool_decide (a = c) then EmptyString :: split c s'
      else match split c s' with
           | piece :: pieces => String a piece :: pieces
           | [] => [String a EmptyString]
           end
  end.

(** [os.getenv(name).split(",") if os.getenv(name) else []] *)
Definition getenv_list (getenv : string -> option string) (name : string)
    : list string :=
  match getenv name with
  | Some value => if bool_decide (value = "") then [] else split "," value
  | None => []
  end.

Definition default_admin_operations : gset string :=
  list_to_set ["create_cluster"; "create_user"; "reset_password";
               "create_index"; "insert_document"; "update_document";
               "delete_document"; "drop_collection"; "drop_database";
               "manage_indexes"].

Definition default_user_operations : gset string :=
  list_to_set ["list_clusters"; "list_databases"; "list_collections";
               "schema_analysis"; "analyze_performance"; "slow_queries";
               "missing_indexes"; "collection_stats"; "database_stats";
               "help"].

Definition default_self_service_operations : gset string :=
  list_to_set ["reset_own_password"; "view_own_user_info";
               "add_ip_whitelist"].

(** [self.<field> = ...]: an assignment to one field of the manager *)
Definition assign (update : RBACManager -> RBACManager) : M unit :=
  let! m := get_self in set_self (update m).

(** The body of the inner [try] after a successful [import config]. *)
Definition load_from_config (attrs : ConfigAttrs) : M unit :=
  run! assign (set_rbac_enabled
                 (to_flag (default (VBool true) (RBAC_ENABLED attrs)))) in
  let! users := to_set (default (VList []) (ADMIN_USERS attrs)) in
  run! assign (set_admin_users users) in
  let! groups := to_set (default (VList []) (ADMIN_GROUPS attrs)) in
  run! assign (set_admin_groups groups) in
  let! admin_ops := to_set (default (VList []) (ADMIN_OPERATIONS attrs)) in
  run! assign (set_admin_operations admin_ops) in
  let! user_ops := to_set (default (VList []) (USER_OPERATIONS attrs)) in
  run! assign (set_user_operations user_ops) in
  let! self_ops :=
    to_set (default (VList []) (SELF_SERVICE_OPERATIONS attrs)) in
  run! assign (set_self_service_operations self_ops) in
  run! assign (set_notify_admin_on_denied
                 (to_flag (default (VBool true)
                             (RBAC_NOTIFY_ADMIN_ON_DENIED attrs)))) in
  run! assign (set_log_access_attempts
                 (to_flag (default (VBool true)
                             (RBAC_LOG_ACCESS_ATTEMPTS attrs)))) in
  logger_info "RBAC configuration loaded from config file".

(** The [except ImportError] branch: environment variables. *)
Definition load_from_environment (getenv : string -> option string)
    : M unit :=
  run! assign (set_rbac_enabled
                 (bool_decide
                    (lower (default "true" (getenv "RBAC_ENABLED"))
                     = "true"))) in
  run! assign (set_admin_users
                 (list_to_set (getenv_list getenv "ADMIN_USERS"))) in
  run! assign (set_admin_groups
                 (list_to_set (getenv_list getenv "ADMIN_GROUPS"))) in
  run! assign (set_admin_operations default_admin_operations) in
  run! assign (set_user_operations default_user_operations) in
  run! assign (set_self_service_operations
                 default_self_service_operations) in
  logger_info "RBAC configuration loaded from environment variables".

(** The [except Exception] branch: the secure configuration. *)
Definition load_secure_defaults (e : Exn) : M unit :=
  run! logger_error ("Error loading RBAC configuration: " +:+ exn_str e) in
  run! assign (set_rbac_enabled true) in
  run! assign (set_admin_users ∅) in
  run! assign (set_admin_groups ∅) in
  run! assign (set_admin_operations
                 (list_to_set ["create_cluster"; "create_user"])) in
  run! assign (set_user_operations
                 (list_to_set ["list_clusters"; "help"])) in
  assign (set_self_service_operations
            (list_to_set ["reset_password"; "add_ip_whitelist"])).

Definition load_configuration (import_config : ConfigImport)
    (getenv : string -> option string) : M unit :=
  except_Exception
    (match import_config with
     | ConfigModule attrs => load_from_config attrs
     | ConfigMissing => load_from_environment getenv
     | ConfigBroken msg => raise (OtherException msg)
     end)
    load_secure_defaults.

(** The fields [__init__] sets before it loads the configuration. *)
Definition blank_manager : RBACManager :=
  {| admin_users := ∅; admin_groups := ∅; admin_operations := ∅;
     user_operations := ∅; self_service_operations := ∅;
     rbac_enabled := true; notify_admin_on_denied := true;
     log_access_attempts := true;
     group_membership_cache := ∅; username_to_id_cache := ∅;
     cache_ttl := 300 |}.

(** [RBACManager(slack_client)]: the world right after construction. *)
Definition init (import_config : ConfigImport)
    (getenv : string -> option string) : World :=
  (load_configuration import_config getenv (fresh_world blank_manager)).2.

(** A set-valued attribute that [set(...)] accepts. *)
Definition iterable (value : option ConfigValue) : Prop :=
  match value with Some (VBool _) => False | _ => True end.

Definition loadable (import_config : ConfigImport) : Prop :=
  match import_config with
  | ConfigModule attrs =>
      iterable (ADMIN_USERS attrs) /\ iterable (ADMIN_GROUPS attrs)
      /\ iterable (ADMIN_OPERATIONS attrs)
      /\ iterable (USER_OPERATIONS attrs)
      /\ iterable (SELF_SERVICE_OPERATIONS attrs)
  | ConfigMissing => True
  | ConfigBroken _ => False
  end.

(** The manager [load_configuration] falls back to when loading fails. *)
Definition secure_manager : RBACManager :=
  {| admin_users := ∅; admin_groups := ∅;
     admin_operations := list_to_set ["create_cluster"; "create_user"];
     user_operations := list_to_set ["list_clusters"; "help"];
     self_service_operations :=
       list_to_set ["reset_password"; "add_ip_whitelist"];
     rbac_enabled := true; notify_admin_on_denied := true;
     log_access_attempts := true;
     group_membership_cache := ∅; username_to_id_cache := ∅;
     cache_ttl := 300 |}.

(** An environment in which only [RBAC_ENABLED] is set. *)
Definition getenv_rbac (value : string) (name : string) : option string :=
  if bool_decide (name = "RBAC_ENABLED") then Some value else None.

(** A [config] module whose [ADMIN_USERS] is [True] instead of a list. *)
Definition mistyped_config : ConfigAttrs :=
  {| RBAC_ENABLED := Some (VBool false);
     ADMIN_USERS := Some (VBool true);
     ADMIN_GROUPS := None; ADMIN_OPERATIONS := None;
     USER_OPERATIONS := None; SELF_SERVICE_OPERATIONS := None;
     RBAC_NOTIFY_ADMIN_ON_DENIED := None;
     RBAC_LOG_ACCESS_ATTEMPTS := None |}.

(** ** Sequences of calls on one manager *)

Inductive Operation :=
  | OpCheckUserPermission (user_id operation : string)
                          (target_user : option string)
  | OpIsUserAdmin (user_id : string)
  | OpClearCache
  | OpUpdateConfiguration (config_updates : list (string * ConfigValue)).

Definition run_operation (env : Env) (o : Operation) (w : World) : World :=
  match o with
  | OpCheckUserPermission u op t => (check_user_permission env u op t w).2
  | OpIsUserAdmin u => (is_user_admin env u w).2
  | OpClearCache => (clear_cache w).2
  | OpUpdateConfiguration updates => (update_configuration env updates w).2
  end.

Definition run_operations (env : Env) (os : list Operation) (w : World)
    : World :=
  foldl (fun w o => run_operation env o w) w os.

(** No entry of the username cache holds an empty id. *)
Definition cached_ids_nonempty (m : RBACManager) : Prop :=
  forall key entry,
    username_to_id_cache m !! key = Some entry -> ue_user_id entry <> "".

(** Every key of the username cache is a formatted username key. *)
Definition cached_keys_formatted (m : RBACManager) : Prop :=
  forall key entry,
    username_to_id_cache m !! key = Some entry ->
    exists username, key = username_cache_key username.

(** The world relation "if [P] held of the manager, it still holds". *)
Definition keeps (P : RBACManager -> Prop) : relation World :=
  fun w w' => P (self w) -> P (self w').

(** What every manager reached from construction satisfies. *)
Definition well_formed (m : RBACManager) : Prop :=
  cache_ttl m = 300%Q /\ cached_ids_nonempty m /\ cached_keys_formatted m.

(** A sample history on the scenario workspace. *)
Definition sample_history : list Operation :=
  [OpCheckUserPermission "U2" "create_cluster" None;
   OpClearCache;
   OpUpdateConfiguration [("admin_groups", VList ["dba"])];
   OpIsUserAdmin "U1"].

(** ** Items [update_configuration] accepts *)

(** The keys whose value goes through [set(value)]. *)
Definition set_valued (key : string) : bool :=
  bool_decide (key = "admin_users") || bool_decide (key = "admin_groups")
  || bool_decide (key = "admin_operations")
  || bool_decide (key = "user_operations").

(** An item that does not make [set(value)] fail. *)
Definition accepted (item : string * ConfigValue) : Prop :=
  match item with
  | (key, VBool _) => set_valued key = false
  | (_, VList _) => True
  end.

Global Instance accepted_dec item : Decision (accepted item).
Proof. destruct item as [key [l|b]]; simpl; apply _. Defined.

(** A workspace with one user group, [dba], whose only member is [U2]. *)
Definition dba_group : Usergroup := {| ug_handle := "dba"; ug_id := "S1" |}.

Definition staffed_env : Env :=
  {| clock := fun n => inject_Z (Z.of_nat n);
     strftime := fun _ => "2024-01-01 00:00:00";
     repr_updates := fun _ => "{...}";
     users_list := fun _ => Return {| ul_ok := true; ul_members := [alice] |};
     users_lookupByEmail := fun _ _ => Raise no_such_user;
     usergroups_list :=
       fun _ => Return {| gl_ok := true; gl_usergroups := [dba_group] |};
     usergroups_users_list :=
       fun _ _ => Return {| gu_ok := true; gu_users := ["U2"] |};
     users_info :=
       fun _ u => Return {| ui_ok := true; ui_user_name := "someone" |};
     chat_postMessage := fun _ _ _ => Return tt |}.

(** The world after one membership test of [U1] in [dba] there. *)
Definition dba_cached_world : World :=
  (is_user_in_group staffed_env "U1" "dba" scenario_world).2.

(** The world in which [U2] has just been found a member of [dba]: the
    positive membership is cached. *)
Definition dba_member_world : World :=
  (is_user_in_group staffed_env "U2" "dba" listed_world).2.

(** The same outage with a clock stopped at one second. *)
Definition frozen_outage_env : Env :=
  {| clock := fun _ => 1%Q;
     strftime := fun _ => "2024-01-01 00:00:00";
     repr_updates := fun _ => "{...}";
     users_list := fun _ => Raise service_unavailable;
     users_lookupByEmail := fun _ _ => Raise service_unavailable;
     usergroups_list := fun _ => Raise service_unavailable;
     usergroups_users_list := fun _ _ => Raise service_unavailable;
     users_info := fun _ _ => Raise service_unavailable;
     chat_postMessage := fun _ _ _ => Raise service_unavailable |}.

(** How a permission check may change the world: the policy is kept,
    Slack calls are only appended, time only advances, and no cache entry
    is removed. *)
Definition grows (w w' : World) : Prop :=
  policy (self w) = policy (self w')
  /\ calls w `prefix_of` calls w'
  /\ tick w <= tick w'
  /\ dom (username_to_id_cache (self w))
     ⊆ dom (username_to_id_cache (self w'))
  /\ dom (group_membership_cache (self w))
     ⊆ dom (group_membership_cache (self w')).

(** The message posted to one admin. *)
Definition post_to (message admin_user : string) : SlackCall :=
  CallChatPostMessage admin_user message.

(** [chat_postMessage] fails with [SlackApiError] only. *)
Definition posting_fails_cleanly (env : Env) : Prop :=
  forall n channel text e,
    chat_postMessage env n channel text = Raise e -> is_SlackApiError e.

(** A workspace in which posting to [@alice] fails with a [SlackApiError]
    and every other call succeeds. *)
Definition flaky_env : Env :=
  {| clock := fun n => inject_Z (Z.of_nat n);
     strftime := fun _ => "2024-01-01 00:00:00";
     repr_updates := fun _ => "{...}";
     users_list := fun _ => Return {| ul_ok := true; ul_members := [alice] |};
     users_lookupByEmail := fun _ _ => Raise no_such_user;
     usergroups_list :=
       fun _ => Return {| gl_ok := true; gl_usergroups := [] |};
     usergroups_users_list :=
       fun _ _ => Return {| gu_ok := true; gu_users := [] |};
     users_info :=
       fun _ u => Return {| ui_ok := true; ui_user_name := "someone" |};
     chat_postMessage :=
       fun _ channel _ =>
         if bool_decide (channel = "@alice")
         then Raise (SlackApiError "channel_not_found") else Return tt |}.

(** ** Notions about [resolve_username_to_user_id] *)

(** A member the list loop accepts for the username. *)
Definition live_match (username : string) (user : SlackUser) : Prop :=
  user_deleted user = false /\ username_matches user username = true.

(** Whether a run of [resolve_username_to_user_id] started at interaction
    [n] goes on to [users_lookupByEmail]. *)
Definition asks_email (env : Env) (username : string) (n : nat) : bool :=
  match users_list env n with
  | Return response =>
      bool_decide ((if ul_ok response
                    then first_matching_user (ul_members response) username
                    else None) = None)
      && contains "@" username
  | Raise _ => false
  end.

(** [c.join(pieces)] for a one-character separator *)
Fixpoint join (c : ascii) (pieces : list string) : string :=
  match pieces with
  | [] => EmptyString
  | [piece] => piece
  | piece :: rest => piece +:+ String c (join c rest)
  end.

(** ** [get_admin_users_info] *)

(** The payload of [users_info] as [get_admin_users_info] reads it. *)
Record UsersInfoProfile := {
  up_ok : bool;
  up_name : string;                       (* user_info["user"]["name"] *)
  up_real_name : string                   (* user_info["user"]["real_name"] *)
}.

Record AdminInfo := {
  ai_user_id : string;
  ai_username : string;
  ai_real_name : string;
  ai_type : string
}.

Definition group_info (group : string) : AdminInfo :=
  {| ai_user_id := "@" +:+ group;
     ai_username := group;
     ai_real_name := "Group: " +:+ group;
     ai_type := "group" |}.

(** The "direct" record of an entry whose lookup answered [user_info]. *)
Definition direct_info (user_id : string) (user_info : UsersInfoProfile)
    : AdminInfo :=
  {| ai_user_id := user_id;
     ai_username := up_name user_info;
     ai_real_name := up_real_name user_info;
     ai_type := "direct" |}.

(** The records of a roster whose entries are visited from interaction
    [n] on: the entry visited [i]-th is looked up at interaction [n + i],
    and is recorded when the lookup answers ok. *)
Definition recorded
    (users_info_profile : nat -> string -> Outcome UsersInfoProfile)
    (n : nat) (users : list string) (a : AdminInfo) : Prop :=
  exists i user_id user_info,
    users !! i = Some user_id
    /\ users_info_profile (n + i) user_id = Return user_info
    /\ up_ok user_info = true
    /\ a = direct_info user_id user_info.

Section AdminRoster.

(** [self.slack_client.users_info] with the profile payload *)
Variable users_info_profile : nat -> string -> Outcome UsersInfoProfile.

(** [for user_id in self.admin_users: try: ... except SlackApiError] *)
Fixpoint admin_users_loop (users : list string) (admin_info : list AdminInfo)
    : M (list AdminInfo) :=
  match users with
  | [] => ret admin_info
  | user_id :: rest =>
      let! appended :=
        except_SlackApiError
          (let! user_info :=
             slack (CallUsersInfo user_id)
                   (fun n => users_info_profile n user_id) in
           if up_ok user_info
           then ret (admin_info
                     ++ [{| ai_user_id := user_id;
                            ai_username := up_name user_info;
                            ai_real_name := up_real_name user_info;
                            ai_type := "direct" |}])
           else ret admin_info)
          (fun msg =>
             run! logger_error ("Error getting admin user info for "
                                +:+ user_id +:+ ": " +:+ msg) in
             ret admin_info) in
      admin_users_loop rest appended
  end.

Definition get_admin_users_info : M (list AdminInfo) :=
  let! m := get_self in
  let! direct := admin_users_loop (elements (admin_users m)) [] in
  let! m' := get_self in
  ret (direct ++ map group_info (elements (admin_groups m'))).

End AdminRoster.

(** A member record with nothing but an id. *)
Definition unnamed_bot : SlackUser :=
  {| user_ident := "B7"; user_deleted := false; user_name := Some "bot";
     user_real_name := None; user_display_name := None;
     user_profile := None |}.

(** A workspace whose first member has no [real_name]. *)
Definition unnamed_env : Env :=
  {| clock := fun n => inject_Z (Z.of_nat n);
     strftime := fun _ => "2024-01-01 00:00:00";
     repr_updates := fun _ => "{...}";
     users_list :=
       fun _ => Return {| ul_ok := true; ul_members := [unnamed_bot; alice] |};
     users_lookupByEmail := fun _ _ => Raise no_such_user;
     usergroups_list :=
       fun _ => Return {| gl_ok := true; gl_usergroups := [] |};
     usergroups_users_list :=
       fun _ _ => Return {| gu_ok := true; gu_users := [] |};
     users_info :=
       fun _ u => Return {| ui_ok := true; ui_user_name := "someone" |};
     chat_postMessage := fun _ _ _ => Return tt |}.

(** [users_info] that knows [U0000000001] only. *)
Definition roster_lookup (n : nat) (user : string)
    : Outcome UsersInfoProfile :=
  if bool_decide (user = "U0000000001")
  then Return {| up_ok := true; up_name := "root";
                 up_real_name := "Root Admin" |}
  else Raise (SlackApiError "user_not_found").

(** * Reasoning principles for the state-and-exception monad *)

(** ** Stability lemmas *)

Lemma bind_Return {A B} (m : M A) (k : A -> M B) w a w' :
  m w = (Return a, w') -> bind m k w = k a w'.
Proof. intros H. unfold bind. by rewrite H. Qed.

Lemma bind_Raise {A B} (m : M A) (k : A -> M B) w e w' :
  m w = (Raise e, w') -> bind m k w = (Raise e, w').
Proof. intros H. unfold bind. by rewrite H. Qed.

Lemma bind_inv {A B} (m : M A) (k : A -> M B) w o w'' :
  bind m k w = (o, w'') ->
  (exists a w', m w = (Return a, w') /\ k a w' = (o, w''))
  \/ (exists e, m w = (Raise e, w'') /\ o = Raise e).
Proof.
  unfold bind. destruct (m w) as [[a|e] w'] eqn:E; intros H.
  - left. eauto.
  - right. inversion H; subst. eauto.
Qed.

Section Stable.
Context (R : relation World) `{!PreOrder R}.

Lemma stable_ret {A} (a : A) : stable R (ret a).
Proof. intros w. simpl. reflexivity. Qed.

Lemma stable_raise {A} e : stable R (@raise A e).
Proof. intros w. simpl. reflexivity. Qed.

Lemma stable_get_self : stable R get_self.
Proof. intros w. simpl. reflexivity. Qed.

Lemma stable_bind {A B} (m : M A) (k : A -> M B) :
  stable R m -> (forall a, stable R (k a)) -> stable R (bind m k).
Proof.
  intros Hm Hk w. unfold bind. specialize (Hm w).
  destruct (m w) as [[a|e] w']; simpl in *; [|done].
  etrans; [exact Hm | apply Hk].
Qed.

Lemma stable_except_SlackApiError {A} (m : M A) h :
  stable R m -> (forall msg, stable R (h msg)) ->
  stable R (except_SlackApiError m h).
Proof.
  intros Hm Hh w. unfold except_SlackApiError. specialize (Hm w).
  destruct (m w) as [[a|[msg|msg]] w']; simpl in *; try done.
  etrans; [exact Hm | apply Hh].
Qed.

Lemma stable_except_Exception {A} (m : M A) h :
  stable R m -> (forall e, stable R (h e)) ->
  stable R (except_Exception m h).
Proof.
  intros Hm Hh w. unfold except_Exception. specialize (Hm w).
  destruct (m w) as [[a|e] w']; simpl in *; try done.
  etrans; [exact Hm | apply Hh].
Qed.
End Stable.

Lemma raises_ret {A} E (a : A) : raises_within E (ret a).
Proof. intros w e H. discriminate. Qed.

Lemma raises_get_self E : raises_within E get_self.
Proof. intros w e H. discriminate. Qed.

Lemma raises_set_self E m : raises_within E (set_self m).
Proof. intros w e H. discriminate. Qed.

Lemma raises_emit E r : raises_within E (emit r).
Proof. intros w e H. discriminate. Qed.

Lemma raises_bind {A B} E (m : M A) (k : A -> M B) :
  raises_within E m -> (forall a, raises_within E (k a)) ->
  raises_within E (bind m k).
Proof.
  intros Hm Hk w e. unfold bind. specialize (Hm w).
  destruct (m w) as [[a|e'] w'] eqn:Em; simpl in *.
  - apply Hk.
  - intros [= ->]. by apply Hm.
Qed.

Lemma raises_except_SlackApiError {A} E (m : M A) h :
  raises_within (fun e => is_SlackApiError e \/ E e) m ->
  (forall msg, raises_within E (h msg)) ->
  raises_within E (except_SlackApiError m h).
Proof.
  intros Hm Hh w e. unfold except_SlackApiError. specialize (Hm w).
  destruct (m w) as [[a|[msg|msg]] w'] eqn:Em; simpl in *.
  - discriminate.
  - apply Hh.
  - intros [= <-]. by destruct (Hm _ eq_refl).
Qed.

Lemma raises_except_Exception {A} E (m : M A) h :
  (forall e, raises_within E (h e)) ->
  raises_within E (except_Exception m h).
Proof.
  intros Hh w e. unfold except_Exception.
  destruct (m w) as [[a|e'] w'] eqn:Em; simpl in *.
  - discriminate.
  - apply Hh.
Qed.

Lemma raises_weaken {A} (E E' : Exn -> Prop) (m : M A) :
  (forall e, E e -> E' e) -> raises_within E m -> raises_within E' m.
Proof. intros HE Hm w e H. apply HE. by eapply Hm. Qed.

Lemma never_returns {A} (m : M A) w :
  raises_within never m -> exists a, (m w).1 = Return a.
Proof.
  intros Hm. destruct (m w).1 as [a|e] eqn:E; [eauto|].
  destruct (Hm w e E).
Qed.

(** * Frame properties of the engine *)

Global Instance evolves_preorder : PreOrder evolves.
Proof.
  split.
  - intros w. repeat split; [done|]. exists []. by rewrite app_nil_r.
  - intros w1 w2 w3 (Hp1 & Hc1 & l1 & Hl1 & He1) (Hp2 & Hc2 & l2 & Hl2 & He2).
    repeat split.
    + congruence.
    + by etrans.
    + exists (l1 ++ l2). rewrite Hl2, Hl1, <- app_assoc. split; [done|].
      by apply Forall_app.
Qed.

Lemma evolves_policy w w' : evolves w w' -> policy (self w) = policy (self w').
Proof. by intros [? _]. Qed.

Lemma policy_admin_users m m' :
  policy m = policy m' -> admin_users m = admin_users m'.
Proof. intros H. by apply (f_equal admin_users) in H. Qed.

Lemma policy_admin_groups m m' :
  policy m = policy m' -> admin_groups m = admin_groups m'.
Proof. intros H. by apply (f_equal admin_groups) in H. Qed.

Lemma policy_admin_operations m m' :
  policy m = policy m' -> admin_operations m = admin_operations m'.
Proof. intros H. by apply (f_equal admin_operations) in H. Qed.

Lemma policy_user_operations m m' :
  policy m = policy m' -> user_operations m = user_operations m'.
Proof. intros H. by apply (f_equal user_operations) in H. Qed.

Lemma policy_notify m m' :
  policy m = policy m' -> notify_admin_on_denied m = notify_admin_on_denied m'.
Proof. intros H. by apply (f_equal notify_admin_on_denied) in H. Qed.

Lemma policy_cache_ttl m m' :
  policy m = policy m' -> cache_ttl m = cache_ttl m'.
Proof. intros H. by apply (f_equal cache_ttl) in H. Qed.

Section Frames.

Variable env : Env.

Lemma evolves_now_timestamp : stable evolves (now_timestamp env).
Proof.
  intros w. repeat split; simpl; [done|]. exists []. by rewrite app_nil_r.
Qed.

Lemma evolves_slack {A} c (answer : nat -> Outcome A) :
  stable evolves (slack c answer).
Proof.
  intros w. repeat split; simpl.
  - by apply prefix_app_r.
  - exists []. by rewrite app_nil_r.
Qed.

Lemma evolves_logger_error msg : stable evolves (logger_error msg).
Proof.
  intros w. repeat split; simpl; [done|].
  exists [LogError msg]. split; [done|]. by repeat constructor.
Qed.

Lemma evolves_cache_user_id key uid : stable evolves (cache_user_id env key uid).
Proof.
  intros w. unfold cache_user_id.
  destruct uid as [uid|]; [destruct (truthy (Some uid))|];
    repeat split; simpl; try done; exists []; by rewrite app_nil_r.
Qed.

Lemma evolves_cache_membership key b :
  stable evolves (cache_membership env key b).
Proof.
  intros w. repeat split; simpl; try done. exists []. by rewrite app_nil_r.
Qed.

Ltac stable_step :=
  first
    [ apply stable_ret; tc_solve
    | apply stable_get_self; tc_solve
    | apply evolves_now_timestamp
    | apply evolves_slack
    | apply evolves_logger_error
    | apply evolves_cache_user_id
    | apply evolves_cache_membership
    | apply stable_bind; [tc_solve | | intros ?]
    | apply stable_except_SlackApiError; [tc_solve | | intros ?]
    | apply stable_except_Exception; [tc_solve | | intros ?]
    | match goal with
      | |- stable _ (if ?b then _ else _) => destruct b
      | |- stable _ (match ?x with Some _ => _ | None => _ end) => destruct x
      end ].

Lemma evolves_cached_user_id key : stable evolves (cached_user_id env key).
Proof. unfold cached_user_id. repeat stable_step. Qed.

Lemma evolves_cached_membership key :
  stable evolves (cached_membership env key).
Proof. unfold cached_membership. repeat stable_step. Qed.

Lemma evolves_resolve_username_to_user_id username :
  stable evolves (resolve_username_to_user_id env username).
Proof. unfold resolve_username_to_user_id. repeat stable_step. Qed.

Lemma evolves_resolve_admin_entry_to_user_id entry :
  stable evolves (resolve_admin_entry_to_user_id env entry).
Proof.
  unfold resolve_admin_entry_to_user_id.
  repeat first [apply evolves_cached_user_id
               |apply evolves_resolve_username_to_user_id | stable_step].
Qed.

Lemma evolves_usergroups_loop gs u g key :
  stable evolves (usergroups_loop env gs u g key).
Proof. induction gs as [|x gs IH]; simpl; repeat (assumption || stable_step). Qed.

Lemma evolves_query_membership u g key :
  stable evolves (query_membership env u g key).
Proof.
  unfold query_membership.
  repeat first [apply evolves_usergroups_loop | stable_step].
Qed.

Lemma evolves_is_user_in_group u g : stable evolves (is_user_in_group env u g).
Proof.
  unfold is_user_in_group.
  repeat first [apply evolves_cached_membership
               |apply evolves_query_membership | stable_step].
Qed.

Lemma evolves_admin_entries_loop l u :
  stable evolves (admin_entries_loop env l u).
Proof.
  induction l as [|x l IH]; simpl;
    repeat first [assumption | apply evolves_resolve_admin_entry_to_user_id
                 | stable_step].
Qed.

Lemma evolves_admin_groups_loop l u :
  stable evolves (admin_groups_loop env l u).
Proof.
  induction l as [|x l IH]; simpl;
    repeat first [assumption | apply evolves_is_user_in_group | stable_step].
Qed.

Lemma evolves_is_user_admin u : stable evolves (is_user_admin env u).
Proof.
  unfold is_user_admin.
  repeat first [apply evolves_admin_entries_loop
               |apply evolves_admin_groups_loop | stable_step].
Qed.

Lemma evolves_notify_loop l msg : stable evolves (notify_loop env l msg).
Proof. induction l as [|x l IH]; simpl; repeat (assumption || stable_step). Qed.

Lemma evolves_notify_admin_of_denied_access u op :
  stable evolves (notify_admin_of_denied_access env u op).
Proof.
  unfold notify_admin_of_denied_access.
  repeat first [apply evolves_notify_loop | stable_step].
Qed.

(** The cache blocks only read the manager, and a hit comes from an
    entry of the cache. *)
Lemma cached_user_id_inv key w r w' :
  cached_user_id env key w = (r, w') ->
  self w' = self w
  /\ exists hit, r = Return hit
     /\ forall u, hit = Some u ->
          exists entry, username_to_id_cache (self w) !! key = Some entry
                        /\ ue_user_id entry = u.
Proof.
  unfold cached_user_id, bind, get_self, now_timestamp, ret. simpl.
  destruct (username_to_id_cache (self w) !! key) as [entry|] eqn:E; simpl.
  - destruct (Qltb _ _); intros [= <- <-]; (split; [done|]);
      eexists; (split; [done|]); intros u [= <-]; eauto.
  - intros [= <- <-]. split; [done|]. eexists. split; [done|]. done.
Qed.

Lemma cached_membership_inv key w r w' :
  cached_membership env key w = (r, w') ->
  self w' = self w
  /\ exists hit, r = Return hit
     /\ forall b, hit = Some b ->
          exists entry, group_membership_cache (self w) !! key = Some entry
                        /\ me_is_member entry = b.
Proof.
  unfold cached_membership, bind, get_self, now_timestamp, ret. simpl.
  destruct (group_membership_cache (self w) !! key) as [entry|] eqn:E; simpl.
  - destruct (Qltb _ _); intros [= <- <-]; (split; [done|]);
      eexists; (split; [done|]); intros u [= <-]; eauto.
  - intros [= <- <-]. split; [done|]. eexists. split; [done|]. done.
Qed.

End Frames.

Section Precedence.

Variable env : Env.

Lemma notify_never_raises u op :
  raises_within never (notify_admin_of_denied_access env u op).
Proof.
  unfold notify_admin_of_denied_access.
  apply raises_except_Exception. intros e. apply raises_emit.
Qed.

Lemma notify_returns u op w :
  exists w', notify_admin_of_denied_access env u op w = (Return tt, w')
             /\ evolves w w'.
Proof.
  destruct (never_returns (notify_admin_of_denied_access env u op) w
              (notify_never_raises u op)) as [[] H].
  pose proof (evolves_notify_admin_of_denied_access env u op w) as Hev.
  destruct (notify_admin_of_denied_access env u op w) as [o w'].
  simpl in *. subst. eauto.
Qed.

(** A directly listed identity is admin at once, with no directory call. *)
Lemma is_user_admin_direct u w :
  u ∈ admin_users (self w) -> is_user_admin env u w = (Return true, w).
Proof.
  intros H. unfold is_user_admin, bind, get_self. simpl.
  by rewrite bool_decide_eq_true_2.
Qed.

(** [check_user_permission], rule by rule. *)
Lemma check_user_permission_unfold u op t w :
  check_user_permission env u op t w =
  if settled_early (self w) u op t then
    (Return (first_matching_rule (self w) u op t false),
     if rbac_enabled (self w) then attempt_logged u op w else w)
  else
    match is_user_admin env u (attempt_logged u op w) with
    | (Return true, w1) => (Return (decision true "Admin user"), w1)
    | (Return false, w1) =>
        (Return (first_matching_rule (self w) u op t false),
         if bool_decide (op ∈ user_operations (self w)) then w1
         else if bool_decide (op ∈ admin_operations (self w)) then
           if notify_admin_on_denied (self w)
           then (notify_admin_of_denied_access env u op w1).2
           else w1
         else w1)
    | (Raise e, w1) => (Raise e, w1)
    end.
Proof.
  unfold check_user_permission, settled_early, first_matching_rule.
  unfold bind at 1. unfold get_self at 1.
  destruct (rbac_enabled (self w)) eqn:Hen; simpl; [|done].
  assert (Hlog : (if log_access_attempts (self w)
                  then logger_info (access_attempt u op) else ret tt) w
                 = (Return tt, attempt_logged u op w)).
  { unfold attempt_logged. by destruct (log_access_attempts (self w)). }
  rewrite (bind_Return _ _ _ _ _ Hlog).
  assert (Hself : self (attempt_logged u op w) = self w).
  { unfold attempt_logged. by destruct (log_access_attempts (self w)). }
  destruct (decide (op ∈ self_service_operations (self w) /\ t = Some u))
    as [[Hop Ht]|Hno].
  { rewrite !bool_decide_eq_true_2 by done. done. }
  rewrite (bool_decide_eq_false_2 _ Hno).
  assert (bool_decide (op ∈ self_service_operations (self w))
          && bool_decide (t = Some u) = false) as ->.
  { apply andb_false_iff.
    destruct (decide (op ∈ self_service_operations (self w)));
      [right|left]; apply bool_decide_eq_false_2; tauto. }
  pose proof (evolves_is_user_admin env u (attempt_logged u op w)) as Hev.
  unfold bind.
  destruct (is_user_admin env u (attempt_logged u op w)) as [[[]|e] w1];
    simpl in *; try done.
  unfold get_self.
  apply evolves_policy in Hev. rewrite Hself in Hev.
  rewrite <- (policy_user_operations _ _ Hev),
          <- (policy_admin_operations _ _ Hev),
          <- (policy_notify _ _ Hev).
  case_bool_decide; [done|]. case_bool_decide; [|done].
  destruct (notify_admin_on_denied (self w)); [|done].
  destruct (notify_returns u op w1) as (w2 & -> & _). done.
Qed.

End Precedence.

(** Closed decidable facts about the scenarios are settled by evaluation. *)
Ltac decide_by_computation :=
  first [ refine (proj1 (bool_decide_eq_false _) _)
        | refine (proj1 (bool_decide_eq_true _) _) ];
  vm_compute; reflexivity.

(** * Denial of admin operations and the notification path *)

Section Notification.

Variable env : Env.





End Notification.


(** * Logging of access attempts *)

(** C6, as stated, fails: with RBAC disabled the call returns before the
    logging statement, so no record is emitted although
    [log_access_attempts] is set. *)
Lemma access_log_counterexample :
  log_access_attempts (self disabled_world) = true
  /\ (check_user_permission healthy_env "U1" "list_clusters" None
        disabled_world).1
     = Return {| allowed := true; reason := "RBAC disabled" |}
  /\ logs (check_user_permission healthy_env "U1" "list_clusters" None
             disabled_world).2
     = logs disabled_world.
Proof. vm_compute. done. Qed.

(** C6, amended.  With [log_access_attempts] set and RBAC enabled, every
    call logs exactly one info record, "Permission check: User <identity>
    attempting <operation>", before the decision is computed; it carries
    the identity and the operation, not the decision.  Whatever else is
    logged during the call is an error record of a failed Slack call.
    With RBAC disabled nothing is logged. *)
Theorem access_attempt_logged env w u op t :
  log_access_attempts (self w) = true ->
  let w' := (check_user_permission env u op t w).2 in
  if rbac_enabled (self w) then
    exists errors,
      logs w' = logs w ++ LogInfo (access_attempt u op) :: errors
      /\ Forall is_error errors
  else logs w' = logs w.
Proof.
  intros Hlog w'. subst w'. rewrite check_user_permission_unfold.
  assert (Hw0 : logs (attempt_logged u op w)
                = logs w ++ [LogInfo (access_attempt u op)]).
  { unfold attempt_logged. by rewrite Hlog. }
  assert (Hself : self (attempt_logged u op w) = self w).
  { unfold attempt_logged. by rewrite Hlog. }
  assert (Hfrom : forall w1, evolves (attempt_logged u op w) w1 ->
            exists errors,
              logs w1 = logs w ++ LogInfo (access_attempt u op) :: errors
              /\ Forall is_error errors).
  { intros w1 (_ & _ & l & Hl & He). exists l.
    by rewrite Hl, Hw0, <- app_assoc. }
  destruct (rbac_enabled (self w)) eqn:Hen.
  - unfold settled_early. rewrite Hen. simpl.
    case_bool_decide; simpl; [apply Hfrom; reflexivity|].
    pose proof (evolves_is_user_admin env u (attempt_logged u op w)) as Hev.
    destruct (is_user_admin env u (attempt_logged u op w)) as [[[]|e] w1];
      simpl in *; try (by apply Hfrom).
    repeat case_bool_decide; try (by apply Hfrom).
    destruct (notify_admin_on_denied (self w)); [|by apply Hfrom].
    apply Hfrom. etrans; [exact Hev|].
    apply evolves_notify_admin_of_denied_access.
  - unfold settled_early. rewrite Hen. done.
Qed.

Lemma access_attempt_logged_witness :
  exists errors,
    logs (check_user_permission healthy_env "U1" "create_cluster" None
            scenario_world).2
    = logs scenario_world
      ++ LogInfo (access_attempt "U1" "create_cluster") :: errors
    /\ Forall is_error errors.
Proof.
  exact (access_attempt_logged healthy_env scenario_world
           "U1" "create_cluster" None eq_refl).
Defined.

(** * Self-service needs an explicit target *)

(** C7, as stated, fails: [target_user] defaults to [None], which is never
    equal to the caller's id, so a self-service operation asked without a
    target falls through to the later rules. *)
Lemma target_omitted_counterexample :
  rbac_enabled (self scenario_world) = true
  /\ "add_ip_whitelist" ∈ self_service_operations (self scenario_world)
  /\ (check_user_permission healthy_env "U1" "add_ip_whitelist" (Some "U1")
        scenario_world).1
     = Return {| allowed := true; reason := "Self-service operation" |}
  /\ (check_user_permission healthy_env "U1" "add_ip_whitelist" None
        scenario_world).1
     = Return {| allowed := false; reason := "Unknown operation" |}.
Proof. split; [done|]. split; [decide_by_computation|]. vm_compute. done. Qed.

(** C7, amended.  With the target omitted and RBAC enabled, the
    self-service rule never applies, whatever the operation: the decision
    is that of the admin, user-operation, admin-operation and
    unknown-operation rules, and its reason is never "Self-service
    operation". *)
Theorem target_omitted_no_self_service env w u op :
  rbac_enabled (self w) = true ->
  (check_user_permission env u op None w).1 =
    match (is_user_admin env u (attempt_logged u op w)).1 with
    | Return is_admin => Return (rules_after_self_service (self w) op is_admin)
    | Raise e => Raise e
    end
  /\ forall d,
       (check_user_permission env u op None w).1 = Return d ->
       reason d <> "Self-service operation".
Proof.
  intros Hen.
  assert (Hs : settled_early (self w) u op None = false).
  { unfold settled_early. rewrite Hen. simpl.
    apply bool_decide_eq_false_2. by intros [_ ?]. }
  assert (Hmain : (check_user_permission env u op None w).1 =
    match (is_user_admin env u (attempt_logged u op w)).1 with
    | Return is_admin => Return (rules_after_self_service (self w) op is_admin)
    | Raise e => Raise e
    end).
  { rewrite check_user_permission_unfold, Hs.
    unfold settled_early in Hs. apply orb_false_iff in Hs as [Hen' Hss].
    destruct (is_user_admin env u (attempt_logged u op w)) as [[[]|e] w1];
      simpl; try done.
    unfold first_matching_rule, rules_after_self_service.
    by rewrite Hen', Hss. }
  split; [exact Hmain|].
  intros d. rewrite Hmain.
  destruct (is_user_admin env u (attempt_logged u op w)).1 as [b|e];
    [|discriminate].
  intros [= <-]. unfold rules_after_self_service.
  destruct b; [done|]. repeat case_bool_decide; done.
Qed.

Lemma target_omitted_no_self_service_witness :
  (check_user_permission healthy_env "U1" "add_ip_whitelist" None
     scenario_world).1
  = Return {| allowed := false; reason := "Unknown operation" |}.
Proof.
  destruct (target_omitted_no_self_service healthy_env
              scenario_world "U1" "add_ip_whitelist" eq_refl)
    as [H _].
  rewrite H. vm_compute. reflexivity.
Defined.

(** * Exceptions reaching the caller *)

Section Raising.

Variable env : Env.

Lemma raises_now_timestamp E : raises_within E (now_timestamp env).
Proof. intros w e H. discriminate. Qed.

Lemma raises_slack {A} (E : Exn -> Prop) c (answer : nat -> Outcome A) :
  (forall n e, answer n = Raise e -> E e) -> raises_within E (slack c answer).
Proof. intros H w e He. simpl in He. by eapply H. Qed.

Lemma raises_cache_user_id E key uid :
  raises_within E (cache_user_id env key uid).
Proof.
  unfold cache_user_id. destruct uid; [destruct (truthy _)|];
    intros w e H; discriminate.
Qed.

Lemma raises_cache_membership E key b :
  raises_within E (cache_membership env key b).
Proof. intros w e H. discriminate. Qed.

Ltac raises_step :=
  first
    [ apply raises_ret
    | apply raises_get_self
    | apply raises_emit
    | apply raises_now_timestamp
    | apply raises_cache_user_id
    | apply raises_cache_membership
    | apply raises_bind; [|intros ?]
    | apply raises_except_SlackApiError; [|intros ?]
    | match goal with
      | |- raises_within _ (if ?b then _ else _) => destruct b
      | |- raises_within _ (match ?x with Some _ => _ | None => _ end) =>
          destruct x
      end ].

Lemma raises_cached_user_id E key : raises_within E (cached_user_id env key).
Proof. unfold cached_user_id. repeat raises_step. Qed.

Lemma raises_cached_membership E key :
  raises_within E (cached_membership env key).
Proof. unfold cached_membership. repeat raises_step. Qed.

Hypothesis clean : directory_fails_cleanly env.

Lemma resolve_username_never_raises username :
  raises_within never (resolve_username_to_user_id env username).
Proof.
  destruct clean as (Hul & Hle & _).
  unfold resolve_username_to_user_id.
  apply raises_except_SlackApiError;
    [|intros msg; unfold logger_error; repeat raises_step].
  apply raises_bind.
  { apply raises_slack. intros n e H. left. by eapply Hul. }
  intros response. repeat raises_step.
  apply raises_slack. intros n e H. left. by eapply (Hle username).
Qed.

Lemma resolve_admin_entry_never_raises entry :
  raises_within never (resolve_admin_entry_to_user_id env entry).
Proof.
  unfold resolve_admin_entry_to_user_id.
  repeat first [apply raises_cached_user_id
               |apply resolve_username_never_raises | raises_step].
Qed.

Lemma usergroups_loop_raises gs u g key :
  raises_within (fun e => is_SlackApiError e \/ never e)
    (usergroups_loop env gs u g key).
Proof.
  destruct clean as (_ & _ & _ & Hgu).
  induction gs as [|x gs IH]; simpl; [apply raises_ret|].
  case_bool_decide; [|exact IH].
  apply raises_bind.
  { apply raises_slack. intros n e He. left. by eapply (Hgu (ug_id x)). }
  intros r. destruct (gu_ok r); [|exact IH]. repeat raises_step.
Qed.

Lemma is_user_in_group_never_raises u g :
  raises_within never (is_user_in_group env u g).
Proof.
  destruct clean as (_ & _ & Hgl & _).
  unfold is_user_in_group.
  apply raises_bind; [apply raises_cached_membership|]. intros [b|].
  { apply raises_ret. }
  apply raises_bind; [|intros ?; apply raises_ret].
  unfold query_membership.
  apply raises_except_SlackApiError;
    [|intros msg; unfold logger_error; repeat raises_step].
  apply raises_bind.
  { apply raises_slack. intros n e H. left. by eapply Hgl. }
  intros r. destruct (gl_ok r); [apply usergroups_loop_raises|].
  apply raises_ret.
Qed.

Lemma admin_entries_loop_never_raises l u :
  raises_within never (admin_entries_loop env l u).
Proof.
  induction l as [|x l IH]; simpl; [apply raises_ret|].
  apply raises_bind; [apply resolve_admin_entry_never_raises|].
  intros r. case_bool_decide; [apply raises_ret|exact IH].
Qed.

Lemma admin_groups_loop_never_raises l u :
  raises_within never (admin_groups_loop env l u).
Proof.
  induction l as [|x l IH]; simpl; [apply raises_ret|].
  apply raises_bind; [apply is_user_in_group_never_raises|].
  intros []; [apply raises_ret|exact IH].
Qed.

Lemma is_user_admin_never_raises u :
  raises_within never (is_user_admin env u).
Proof.
  unfold is_user_admin.
  apply raises_bind; [apply raises_get_self|]. intros m.
  case_bool_decide; [apply raises_ret|].
  apply raises_bind; [apply admin_entries_loop_never_raises|].
  intros []; [apply raises_ret|].
  apply raises_bind; [apply raises_get_self|]. intros m'.
  apply admin_groups_loop_never_raises.
Qed.

(** C5, amended.  When the directory endpoints ([users_list],
    [users_lookupByEmail], [usergroups_list], [usergroups_users_list]) fail
    with [SlackApiError] only, and whatever the notification endpoints do,
    [check_user_permission] returns a decision for every identity,
    operation and target. *)
Theorem check_user_permission_returns w u op t :
  exists d w', check_user_permission env u op t w = (Return d, w').
Proof.
  rewrite check_user_permission_unfold.
  destruct (settled_early (self w) u op t); [eauto|].
  destruct (never_returns (is_user_admin env u) (attempt_logged u op w)
              (is_user_admin_never_raises u)) as [b Hb].
  destruct (is_user_admin env u (attempt_logged u op w)) as [o w1].
  simpl in Hb. subst o. destruct b; eauto.
Qed.

End Raising.

(** C5, as stated, fails: only [SlackApiError] is caught around the
    directory calls, so any other exception of the client (here a timeout
    of [users.list]) leaves [check_user_permission] through
    [resolve_username_to_user_id], and no decision is returned. *)
Lemma check_user_permission_raises_counterexample :
  (check_user_permission timeout_env "U1" "create_cluster" None
     scenario_world).1
  = Raise (OtherException "TimeoutError").
Proof. vm_compute. reflexivity. Qed.

Lemma healthy_env_fails_cleanly : directory_fails_cleanly healthy_env.
Proof.
  unfold directory_fails_cleanly, SlackApiError_only. simpl.
  repeat split; intros; try discriminate. by simplify_eq.
Qed.

Lemma check_user_permission_returns_witness :
  exists d w',
    check_user_permission healthy_env "U1" "create_cluster" None scenario_world
    = (Return d, w').
Proof.
  exact (check_user_permission_returns healthy_env healthy_env_fails_cleanly
           scenario_world "U1" "create_cluster" None).
Defined.

(** * Loops that return at the first accepted item *)

Section FirstAccepted.

Context {A : Type} (step : string -> M A) (accept : A -> bool).
Variable loop : list string -> M bool.

Hypothesis loop_nil : loop [] = ret false.
Hypothesis loop_cons :
  forall item rest,
    loop (item :: rest)
    = let! a := step item in if accept a then ret true else loop rest.

Lemma first_accepted_nil w item w' :
  ~ first_accepted step accept [] w item w'.
Proof. intros (pre & post & wa & a & H & _). by destruct pre. Qed.

Lemma first_accepted_here item rest w a w' :
  step item w = (Return a, w') -> accept a = true ->
  forall x w2, first_accepted step accept (item :: rest) w x w2
               <-> x = item /\ w2 = w'.
Proof.
  intros Hstep Hacc x w2. split.
  - intros (pre & post & wa & b & Hl & Hpre & Hrun & Hb).
    destruct pre as [|p pre]; simpl in *.
    + injection Hl as <- <-. injection Hpre as <-.
      rewrite Hstep in Hrun. by injection Hrun as <- <-.
    + injection Hl as <- ->. rewrite Hstep, Hacc in Hpre. discriminate.
  - intros [-> ->]. exists [], rest, w, a. done.
Qed.

Lemma first_accepted_later item rest w a w1 :
  step item w = (Return a, w1) -> accept a = false ->
  forall x w2, first_accepted step accept (item :: rest) w x w2
               <-> first_accepted step accept rest w1 x w2.
Proof.
  intros Hstep Hacc x w2. split.
  - intros (pre & post & wa & b & Hl & Hpre & Hrun & Hb).
    destruct pre as [|p pre]; simpl in *.
    + injection Hl as <- <-. injection Hpre as <-.
      rewrite Hstep in Hrun. injection Hrun as <- <-. congruence.
    + injection Hl as <- ->. rewrite Hstep, Hacc in Hpre.
      exists pre, post, wa, b. done.
  - intros (pre & post & wa & b & -> & Hpre & Hrun & Hb).
    exists (item :: pre), post, wa, b. simpl. rewrite Hstep, Hacc. done.
Qed.

Lemma first_accepted_raised item rest w e w1 :
  step item w = (Raise e, w1) ->
  forall x w2, ~ first_accepted step accept (item :: rest) w x w2.
Proof.
  intros Hstep x w2 (pre & post & wa & b & Hl & Hpre & Hrun & Hb).
  destruct pre as [|p pre]; simpl in *.
  - injection Hl as <- <-. injection Hpre as <-. congruence.
  - injection Hl as <- ->. by rewrite Hstep in Hpre.
Qed.

(** The loop returns true exactly when some item is the first accepted
    one, and in the world its run ends in. *)
Lemma loop_true items w w' :
  loop items w = (Return true, w')
  <-> exists item, first_accepted step accept items w item w'.
Proof.
  revert w. induction items as [|item rest IH]; intros w.
  - rewrite loop_nil. split; [discriminate|].
    intros [item H]. by apply first_accepted_nil in H.
  - rewrite loop_cons. unfold bind at 1.
    destruct (step item w) as [[a|e] w1] eqn:Hstep.
    + destruct (accept a) eqn:Hacc.
      * split.
        -- intros [= <-]. exists item.
           by apply (first_accepted_here _ rest _ _ _ Hstep Hacc).
        -- intros [x H].
           apply (first_accepted_here _ rest _ _ _ Hstep Hacc) in H
             as [_ ->]. done.
      * rewrite IH. split; intros [x H]; exists x;
          by apply (first_accepted_later _ rest _ _ _ Hstep Hacc).
    + split; [discriminate|]. intros [x H].
      by apply (first_accepted_raised _ rest _ _ _ Hstep) in H.
Qed.

(** The loop returns false exactly when every item is turned down. *)
Lemma loop_false items w w' :
  loop items w = (Return false, w')
  <-> turned_down step accept items w = Some w'.
Proof.
  revert w. induction items as [|item rest IH]; intros w.
  - rewrite loop_nil. simpl. split; intros [= <-]; done.
  - rewrite loop_cons. unfold bind at 1. simpl.
    destruct (step item w) as [[a|e] w1] eqn:Hstep.
    + destruct (accept a) eqn:Hacc; [split; discriminate|]. apply IH.
    + split; discriminate.
Qed.

End FirstAccepted.

Section AdminCheck.

Variable env : Env.

Lemma admin_entries_loop_true entries u w w' :
  admin_entries_loop env entries u w = (Return true, w')
  <-> exists entry,
        first_accepted (resolve_admin_entry_to_user_id env) (resolves_to u)
          entries w entry w'.
Proof.
  apply (loop_true _ _ (fun l => admin_entries_loop env l u)); done.
Qed.

Lemma admin_entries_loop_false entries u w w' :
  admin_entries_loop env entries u w = (Return false, w')
  <-> turned_down (resolve_admin_entry_to_user_id env) (resolves_to u)
        entries w = Some w'.
Proof.
  apply (loop_false _ _ (fun l => admin_entries_loop env l u)); done.
Qed.

Lemma admin_groups_loop_true groups u w w' :
  admin_groups_loop env groups u w = (Return true, w')
  <-> exists group,
        first_accepted (is_user_in_group env u) is_member groups w group w'.
Proof.
  apply (loop_true _ _ (fun l => admin_groups_loop env l u)); done.
Qed.

Lemma admin_groups_loop_false groups u w w' :
  admin_groups_loop env groups u w = (Return false, w')
  <-> turned_down (is_user_in_group env u) is_member groups w = Some w'.
Proof.
  apply (loop_false _ _ (fun l => admin_groups_loop env l u)); done.
Qed.

Lemma first_accepted_elem {A} (step : string -> M A) accept items w item w' :
  first_accepted step accept items w item w' -> item ∈ items.
Proof.
  intros (pre & post & wa & a & -> & _). apply elem_of_app. right. left.
Qed.

(** The entries loop keeps the policy: the groups visited afterwards are
    those of the manager the check started with. *)
Lemma turned_down_entries_groups entries u w w1 :
  turned_down (resolve_admin_entry_to_user_id env) (resolves_to u)
    entries w = Some w1 ->
  admin_groups (self w1) = admin_groups (self w).
Proof.
  intros H. apply admin_entries_loop_false in H.
  pose proof (evolves_admin_entries_loop env entries u w) as Hev.
  rewrite H in Hev. simpl in Hev.
  symmetry. exact (policy_admin_groups _ _ (evolves_policy _ _ Hev)).
Qed.

(** A positive admin verdict has exactly the three stated grounds. *)
Lemma is_user_admin_true u w w' :
  is_user_admin env u w = (Return true, w') <-> admin_by env (self w) u w w'.
Proof.
  unfold is_user_admin, admin_by.
  unfold bind at 1. unfold get_self at 1.
  case_bool_decide as Hin.
  { split.
    - intros [= <-]. by left.
    - intros [[_ ->]|[[? _]|[? _]]]; done. }
  unfold bind at 1.
  destruct (admin_entries_loop env (elements (admin_users (self w))) u w)
    as [[[]|e] w1] eqn:Hentries; cbv beta iota; unfold ret.
  - pose proof Hentries as [entry Hentry]%admin_entries_loop_true.
    split.
    + intros [= <-]. right; left. split; [done|]. exists entry.
      split; [|done].
      apply elem_of_elements. by eapply first_accepted_elem.
    + intros [[? _]|[(_ & x & _ & Hx)|(_ & w2 & g & Hdown & _)]]; [done| |].
      * assert (admin_entries_loop env (elements (admin_users (self w))) u w
                = (Return true, w')) as Hagain.
        { apply admin_entries_loop_true. by exists x. }
        congruence.
      * apply admin_entries_loop_false in Hdown.
        rewrite Hentries in Hdown. discriminate.
  - pose proof Hentries as Hdown%admin_entries_loop_false.
    pose proof (turned_down_entries_groups _ _ _ _ Hdown) as Hgroups.
    unfold bind, get_self. rewrite Hgroups. split.
    + intros [group Hg]%admin_groups_loop_true. right; right.
      split; [done|]. exists w1, group. split; [done|]. split; [|done].
      apply elem_of_elements. by eapply first_accepted_elem.
    + intros [[? _]|[(_ & x & _ & Hx)|(_ & w2 & g & Hdown' & _ & Hg)]];
        [done| |].
      * assert (admin_entries_loop env (elements (admin_users (self w))) u w
                = (Return true, w')) as Hagain.
        { apply admin_entries_loop_true. by exists x. }
        congruence.
      * rewrite Hdown in Hdown'. injection Hdown' as <-.
        apply admin_groups_loop_true. by exists g.
  - split; [discriminate|].
    intros [[? _]|[(_ & x & _ & Hx)|(_ & w2 & g & Hdown & _)]]; [done| |].
    + assert (admin_entries_loop env (elements (admin_users (self w))) u w
              = (Return true, w')) as Hagain.
      { apply admin_entries_loop_true. by exists x. }
      congruence.
    + apply admin_entries_loop_false in Hdown.
        rewrite Hentries in Hdown. discriminate.
Qed.

(** A negative verdict means that every ground was tried and failed. *)
Lemma is_user_admin_false u w w' :
  is_user_admin env u w = (Return false, w')
  <-> not_admin_by env (self w) u w w'.
Proof.
  unfold is_user_admin, not_admin_by.
  unfold bind at 1. unfold get_self at 1.
  case_bool_decide as Hin.
  { split; [discriminate|]. by intros [? _]. }
  unfold bind at 1.
  destruct (admin_entries_loop env (elements (admin_users (self w))) u w)
    as [[[]|e] w1] eqn:Hentries; cbv beta iota; unfold ret.
  - split; [discriminate|]. intros (_ & w2 & Hdown & _).
    apply admin_entries_loop_false in Hdown.
        rewrite Hentries in Hdown. discriminate.
  - pose proof Hentries as Hdown%admin_entries_loop_false.
    pose proof (turned_down_entries_groups _ _ _ _ Hdown) as Hgroups.
    unfold bind, get_self. rewrite Hgroups, admin_groups_loop_false. split.
    + intros Hg. split; [done|]. by exists w1.
    + intros (_ & w2 & Hdown' & Hg).
      rewrite Hdown in Hdown'. by injection Hdown' as <-.
  - split; [discriminate|]. intros (_ & w2 & Hdown & _).
    apply admin_entries_loop_false in Hdown.
        rewrite Hentries in Hdown. discriminate.
Qed.

End AdminCheck.

(** * Permission precedence *)

(** C1, amended.  The outcome of [check_user_permission] is that of the
    first matching rule among: RBAC disabled; self-service operation with
    the target equal to the identity; admin identity; user operation;
    admin operation (denied); unknown operation (denied).  Rules (1) and
    (2) decide whatever the admin check would say.  In rule (3) the
    identity is admin exactly when the admin check, run once the attempt is
    logged, finds it listed in [admin_users], or finds a first entry of
    [admin_users] that resolves to it, or, no entry resolving to it, finds
    a first admin group it is a member of; it is not admin exactly when
    every entry and every group has been tried and turned down.  The call
    returns no decision when the admin check raises: the exception
    reaches the caller.  That does not happen when the directory
    endpoints fail with [SlackApiError] only.  In particular a non-admin is
    allowed an operation listed both as user and as admin operation, and
    an admin is allowed with reason "Admin user" also for user
    operations. *)
Theorem check_user_permission_precedence env w u op t :
  let m := self w in
  let w0 := attempt_logged u op w in
  let verdict := (is_user_admin env u w0).1 in
  (check_user_permission env u op t w).1 =
    (if settled_early m u op t
     then Return (first_matching_rule m u op t false)
     else match verdict with
          | Return is_admin => Return (first_matching_rule m u op t is_admin)
          | Raise e => Raise e
          end)
  /\ (forall is_admin,
        settled_early m u op t = true ->
        first_matching_rule m u op t is_admin
        = first_matching_rule m u op t false)
  /\ (forall w',
        is_user_admin env u w0 = (Return true, w') <-> admin_by env m u w0 w')
  /\ (forall w',
        is_user_admin env u w0 = (Return false, w')
        <-> not_admin_by env m u w0 w')
  /\ (directory_fails_cleanly env -> exists is_admin, verdict = Return is_admin)
  /\ (settled_early m u op t = false -> verdict = Return false ->
      op ∈ user_operations m -> op ∈ admin_operations m ->
      (check_user_permission env u op t w).1
      = Return {| allowed := true; reason := "User operation" |})
  /\ (settled_early m u op t = false -> verdict = Return true ->
      op ∈ user_operations m ->
      (check_user_permission env u op t w).1
      = Return {| allowed := true; reason := "Admin user" |}).
Proof.
  intros m w0 verdict.
  assert (Hself : self w0 = m).
  { unfold w0, attempt_logged. by destruct (log_access_attempts (self w)). }
  assert (Hmain : (check_user_permission env u op t w).1 =
    (if settled_early m u op t
     then Return (first_matching_rule m u op t false)
     else match verdict with
          | Return is_admin => Return (first_matching_rule m u op t is_admin)
          | Raise e => Raise e
          end)).
  { rewrite check_user_permission_unfold. fold m w0. subst verdict.
    destruct (settled_early m u op t) eqn:Hs; [done|].
    destruct (is_user_admin env u w0) as [[[]|e] w1]; simpl; try done.
    unfold settled_early in Hs. apply orb_false_iff in Hs as [Hen Hss].
    unfold first_matching_rule. by rewrite Hen, Hss. }
  split; [exact Hmain|]. split; [|split; [|split; [|split; [|split]]]].
  - intros is_admin Hs. unfold settled_early in Hs.
    unfold first_matching_rule.
    destruct (negb (rbac_enabled m)); [done|]. simpl in Hs. by rewrite Hs.
  - intros w'. rewrite <- Hself. apply is_user_admin_true.
  - intros w'. rewrite <- Hself. apply is_user_admin_false.
  - intros clean. subst verdict.
    apply never_returns. by apply is_user_admin_never_raises.
  - intros Hs Hv Hu _. rewrite Hmain, Hs, Hv.
    unfold settled_early in Hs. apply orb_false_iff in Hs as [Hen Hss].
    unfold first_matching_rule. rewrite Hen, Hss.
    by rewrite bool_decide_eq_true_2.
  - intros Hs Hv Hu. rewrite Hmain, Hs, Hv.
    unfold settled_early in Hs. apply orb_false_iff in Hs as [Hen Hss].
    unfold first_matching_rule. by rewrite Hen, Hss.
Qed.

(** C1, as stated, fails for the calls that return no decision: with RBAC
    enabled, no target and an identity that is not listed, the operation
    [list_clusters] is a user operation (rule 4), but [users.list] times
    out while the admin entry [@alice] is resolved for rule (3), the
    exception is not a [SlackApiError], and the call raises. *)
Lemma precedence_without_decision_counterexample :
  settled_early scenario_manager "U9" "list_clusters" None = false
  /\ ("U9" ∉ admin_users scenario_manager)
  /\ "list_clusters" ∈ user_operations scenario_manager
  /\ (check_user_permission timeout_env "U9" "list_clusters" None
        scenario_world).1
     = Raise (OtherException "TimeoutError").
Proof.
  split; [vm_compute; reflexivity|].
  split; [decide_by_computation|].
  split; [decide_by_computation|].
  vm_compute. reflexivity.
Qed.

(** The specification's third scenario: [@alice] is an admin entry, the
    directory resolves [alice] to [U2], and [U2] asks for
    [create_cluster]; and a workspace in which [U2] is admin as a member
    of the group [dba] while [U1], no member, is not. *)
Lemma check_user_permission_precedence_witness :
  ((check_user_permission healthy_env "U2" "create_cluster" None
      scenario_world).1
   = Return {| allowed := true; reason := "Admin user" |}
   /\ admin_by healthy_env scenario_manager "U2"
        (attempt_logged "U2" "create_cluster" scenario_world)
        alice_checked_world)
  /\ (exists w',
        admin_by staffed_env group_manager "U2"
          (attempt_logged "U2" "create_cluster" group_world) w')
  /\ (exists w',
        not_admin_by staffed_env group_manager "U1"
          (attempt_logged "U1" "create_cluster" group_world) w').
Proof.
  split; [|split].
  - destruct (check_user_permission_precedence healthy_env
                scenario_world "U2" "create_cluster" None)
      as (H & _ & Htrue & _).
    split; [rewrite H; vm_compute; reflexivity|].
    apply Htrue. vm_compute. reflexivity.
  - destruct (check_user_permission_precedence staffed_env
                group_world "U2" "create_cluster" None)
      as (_ & _ & Htrue & _).
    exists (is_user_admin staffed_env "U2"
              (attempt_logged "U2" "create_cluster" group_world)).2.
    apply Htrue. vm_compute. reflexivity.
  - destruct (check_user_permission_precedence staffed_env
                group_world "U1" "create_cluster" None)
      as (_ & _ & _ & Hfalse & _).
    exists (is_user_admin staffed_env "U1"
              (attempt_logged "U1" "create_cluster" group_world)).2.
    apply Hfalse. vm_compute. reflexivity.
Defined.

(** * Directory outage *)

Section Outage.

Variable env : Env.

(** The cache blocks only read the manager and the clock. *)
Lemma cached_user_id_served key w :
  exists w',
    cached_user_id env key w
    = (Return (served_user_id env (self w) key (tick w)), w')
    /\ self w' = self w /\ tick w <= tick w'.
Proof.
  unfold cached_user_id, served_user_id, within_ttl, bind, get_self,
    now_timestamp, ret. simpl.
  destruct (username_to_id_cache (self w) !! key) as [cached|]; simpl.
  - destruct (Qltb _ _); eexists; (split; [reflexivity|]); simpl; auto.
  - eexists. split; [reflexivity|]. auto.
Qed.

Lemma cached_membership_served key w :
  exists w',
    cached_membership env key w
    = (Return (served_membership env (self w) key (tick w)), w')
    /\ self w' = self w /\ tick w <= tick w'.
Proof.
  unfold cached_membership, served_membership, within_ttl, bind, get_self,
    now_timestamp, ret. simpl.
  destruct (group_membership_cache (self w) !! key) as [cached|]; simpl.
  - destruct (Qltb _ _); eexists; (split; [reflexivity|]); simpl; auto.
  - eexists. split; [reflexivity|]. auto.
Qed.

Hypothesis outage : directory_outage env.

Lemma outage_resolve_username username w :
  exists w',
    resolve_username_to_user_id env username w = (Return None, w')
    /\ self w' = self w /\ tick w <= tick w'.
Proof.
  destruct outage as (Hul & _).
  unfold resolve_username_to_user_id, except_SlackApiError, bind, slack.
  destruct (Hul (tick w)) as [msg ->]. simpl. eexists.
  split; [reflexivity|]. simpl. auto.
Qed.

(** During the outage an admin entry resolves to itself (canonical id) or
    to what the cache serves, and nothing is cached. *)
Lemma outage_resolve_admin_entry entry w :
  exists w',
    resolve_admin_entry_to_user_id env entry w
    = (Return (if canonical_id entry then Some entry
               else served_user_id env (self w)
                      (username_cache_key (lstrip "@" entry)) (tick w)),
       w')
    /\ self w' = self w /\ tick w <= tick w'.
Proof.
  unfold resolve_admin_entry_to_user_id.
  destruct (canonical_id entry); [exists w; auto|].
  destruct (cached_user_id_served (username_cache_key (lstrip "@" entry)) w)
    as (w0 & Hhit & Hs0 & Ht0).
  rewrite (bind_Return _ _ _ _ _ Hhit).
  destruct (served_user_id env (self w) _ (tick w)) as [cached|].
  - exists w0. auto.
  - destruct (outage_resolve_username (lstrip "@" entry) w0)
      as (w1 & Hres & Hs1 & Ht1).
    rewrite (bind_Return _ _ _ _ _ Hres). simpl. exists w1.
    split; [reflexivity|]. split; [congruence|lia].
Qed.

Lemma outage_query_membership u g key w :
  exists w',
    query_membership env u g key w = (Return None, w')
    /\ self w' = self w /\ tick w <= tick w'.
Proof.
  destruct outage as (_ & _ & Hgl & _).
  unfold query_membership, except_SlackApiError, bind, slack.
  destruct (Hgl (tick w)) as [msg ->]. simpl. eexists.
  split; [reflexivity|]. simpl. auto.
Qed.

(** During the outage a membership test answers what the cache serves,
    and false otherwise. *)
Lemma outage_is_user_in_group u g w :
  exists w',
    is_user_in_group env u g w
    = (Return (default false
                 (served_membership env (self w) (group_cache_key u g)
                    (tick w))), w')
    /\ self w' = self w /\ tick w <= tick w'.
Proof.
  unfold is_user_in_group.
  destruct (cached_membership_served (group_cache_key u g) w)
    as (w0 & Hhit & Hs0 & Ht0).
  rewrite (bind_Return _ _ _ _ _ Hhit).
  destruct (served_membership env (self w) _ (tick w)) as [b|].
  - exists w0. auto.
  - destruct (outage_query_membership u g (group_cache_key u g) w0)
      as (w1 & Hq & Hs1 & Ht1).
    rewrite (bind_Return _ _ _ _ _ Hq). simpl. exists w1.
    split; [reflexivity|]. split; [congruence|lia].
Qed.

(** Both loops of the admin check return during the outage. *)
Lemma outage_admin_entries_loop l u w :
  exists b w',
    admin_entries_loop env l u w = (Return b, w')
    /\ self w' = self w /\ tick w <= tick w'.
Proof.
  revert w. induction l as [|x l IH]; intros w; simpl.
  { exists false, w. auto. }
  destruct (outage_resolve_admin_entry x w) as (w1 & Hr & Hs1 & Ht1).
  rewrite (bind_Return _ _ _ _ _ Hr). case_bool_decide.
  - exists true, w1. auto.
  - destruct (IH w1) as (b & w2 & H2 & Hs2 & Ht2). exists b, w2.
    split; [done|]. split; [congruence|lia].
Qed.

Lemma outage_admin_groups_loop l u w :
  exists b w',
    admin_groups_loop env l u w = (Return b, w')
    /\ self w' = self w /\ tick w <= tick w'.
Proof.
  revert w. induction l as [|x l IH]; intros w; simpl.
  { exists false, w. auto. }
  destruct (outage_is_user_in_group u x w) as (w1 & Hr & Hs1 & Ht1).
  rewrite (bind_Return _ _ _ _ _ Hr).
  destruct (default false _).
  - exists true, w1. auto.
  - destruct (IH w1) as (b & w2 & H2 & Hs2 & Ht2). exists b, w2.
    split; [done|]. split; [congruence|lia].
Qed.

(** No entry resolves to an identity that is neither listed nor vouched
    for by a cached resolution. *)
Lemma outage_entries_turned_down l u w0 w :
  self w = self w0 -> tick w0 <= tick w ->
  (forall x, x ∈ l -> x ∈ admin_users (self w0)) ->
  u ∉ admin_users (self w0) ->
  ~ resolution_cached w0 u (may_be_served env w0) ->
  exists w',
    admin_entries_loop env l u w = (Return false, w')
    /\ self w' = self w0 /\ tick w0 <= tick w'.
Proof.
  intros Hs Ht Hl Hnin Hnv. revert w Hs Ht.
  induction l as [|x l IH]; intros w Hs Ht; simpl.
  { exists w. auto. }
  destruct (outage_resolve_admin_entry x w) as (w1 & Hr & Hs1 & Ht1).
  rewrite (bind_Return _ _ _ _ _ Hr).
  rewrite bool_decide_eq_false_2.
  - apply IH; [|congruence|lia]. intros y Hy. apply Hl. by right.
  - destruct (canonical_id x) eqn:Hshape.
    + intros [= ->]. apply Hnin, Hl. left.
    + unfold served_user_id. rewrite Hs.
      destruct (username_to_id_cache (self w0) !! _) as [cached|] eqn:Hc;
        [|done].
      destruct (within_ttl env (self w0) _ (tick w)) eqn:Hfresh; [|done].
      intros [= Hid]. apply Hnv. exists x, cached.
      split; [apply Hl; left|]. split; [done|]. split; [done|].
      split; [done|]. by exists (tick w).
Qed.

(** The identity is found a member of no group for which no positive
    membership is cached. *)
Lemma outage_groups_turned_down l u w0 w :
  self w = self w0 -> tick w0 <= tick w ->
  (forall g, g ∈ l -> g ∈ admin_groups (self w0)) ->
  ~ membership_cached w0 u (may_be_served env w0) ->
  exists w',
    admin_groups_loop env l u w = (Return false, w')
    /\ self w' = self w0 /\ tick w0 <= tick w'.
Proof.
  intros Hs Ht Hl Hnv. revert w Hs Ht.
  induction l as [|x l IH]; intros w Hs Ht; simpl.
  { exists w. auto. }
  destruct (outage_is_user_in_group u x w) as (w1 & Hr & Hs1 & Ht1).
  rewrite (bind_Return _ _ _ _ _ Hr).
  assert (default false
            (served_membership env (self w) (group_cache_key u x) (tick w))
          = false) as ->.
  { unfold served_membership. rewrite Hs.
    destruct (group_membership_cache (self w0) !! _) as [cached|] eqn:Hc;
      [|done].
    destruct (within_ttl env (self w0) _ (tick w)) eqn:Hfresh; [|done].
    simpl. destruct (me_is_member cached) eqn:Hm; [|done].
    exfalso. apply Hnv. exists x, cached.
    split; [apply Hl; left|]. split; [done|]. split; [done|].
    by exists (tick w). }
  apply IH; [|congruence|lia]. intros y Hy. apply Hl. by right.
Qed.

(** A cached resolution that is served whenever it is read makes the
    entries loop admit the identity. *)
Lemma outage_entries_admit l u w0 w entry cached :
  self w = self w0 -> tick w0 <= tick w ->
  entry ∈ l ->
  canonical_id entry = false ->
  username_to_id_cache (self w0) !! username_cache_key (lstrip "@" entry)
  = Some cached ->
  ue_user_id cached = u ->
  always_served env w0 (ue_timestamp cached) ->
  exists w', admin_entries_loop env l u w = (Return true, w').
Proof.
  intros Hs Ht Hin Hshape Hc Hid Hfresh. revert w Hs Ht.
  induction l as [|x l IH]; intros w Hs Ht; [by apply elem_of_nil in Hin|].
  simpl.
  destruct (outage_resolve_admin_entry x w) as (w1 & Hr & Hs1 & Ht1).
  rewrite (bind_Return _ _ _ _ _ Hr). case_bool_decide as Hres; [eauto|].
  apply elem_of_cons in Hin as [->|Hin].
  - exfalso. apply Hres. rewrite Hshape. unfold served_user_id.
    rewrite Hs, Hc, (Hfresh (tick w) Ht). by rewrite Hid.
  - apply IH; [done|congruence|lia].
Qed.

Lemma outage_groups_admit l u w0 w group cached :
  self w = self w0 -> tick w0 <= tick w ->
  group ∈ l ->
  group_membership_cache (self w0) !! group_cache_key u group = Some cached ->
  me_is_member cached = true ->
  always_served env w0 (me_timestamp cached) ->
  exists w', admin_groups_loop env l u w = (Return true, w').
Proof.
  intros Hs Ht Hin Hc Hm Hfresh. revert w Hs Ht.
  induction l as [|x l IH]; intros w Hs Ht; [by apply elem_of_nil in Hin|].
  simpl.
  destruct (outage_is_user_in_group u x w) as (w1 & Hr & Hs1 & Ht1).
  rewrite (bind_Return _ _ _ _ _ Hr).
  destruct (default false _) eqn:Hres; [eauto|].
  apply elem_of_cons in Hin as [->|Hin].
  - exfalso. revert Hres. unfold served_membership.
    rewrite Hs, Hc, (Hfresh (tick w) Ht). simpl. by rewrite Hm.
  - apply IH; [done|congruence|lia].
Qed.

Lemma outage_is_user_admin_false u w :
  u ∉ admin_users (self w) -> ~ vouched_for env w u ->
  exists w', is_user_admin env u w = (Return false, w').
Proof.
  intros Hnin Hnv. unfold is_user_admin.
  unfold bind at 1. unfold get_self at 1.
  rewrite (bool_decide_eq_false_2 _ Hnin).
  destruct (outage_entries_turned_down (elements (admin_users (self w))) u w w)
    as (w1 & H1 & Hs1 & Ht1); try done.
  { intros x. by rewrite elem_of_elements. }
  { intros H. apply Hnv. by left. }
  rewrite (bind_Return _ _ _ _ _ H1).
  unfold bind, get_self.
  destruct (outage_groups_turned_down (elements (admin_groups (self w1))) u
              w w1) as (w2 & H2 & _); try done.
  { intros g. by rewrite elem_of_elements, Hs1. }
  { intros H. apply Hnv. by right. }
  eauto.
Qed.

Lemma outage_is_user_admin_true u w :
  u ∈ admin_users (self w) \/ firmly_vouched_for env w u ->
  exists w', is_user_admin env u w = (Return true, w').
Proof.
  intros Hwhy. unfold is_user_admin.
  unfold bind at 1. unfold get_self at 1.
  case_bool_decide as Hin; [eauto|].
  destruct Hwhy as [?|Hwhy]; [done|].
  destruct (outage_admin_entries_loop (elements (admin_users (self w))) u w)
    as (b & w1 & H1 & Hs1 & Ht1).
  destruct Hwhy as [(entry & cached & He & Hshape & Hc & Hid & Hfresh)
                   |(group & cached & Hg & Hc & Hm & Hfresh)].
  - destruct (outage_entries_admit (elements (admin_users (self w))) u w w
                entry cached) as (w2 & H2); try done.
    { by apply elem_of_elements. }
    rewrite (bind_Return _ _ _ _ _ H2). eauto.
  - rewrite (bind_Return _ _ _ _ _ H1). destruct b; [eauto|].
    unfold bind, get_self. rewrite Hs1.
    apply (outage_groups_admit _ u w w1 group cached); try done.
    by apply elem_of_elements.
Qed.

(** C2, amended.  When every directory call raises [SlackApiError],
    [is_user_admin] returns false for every identity that is not itself an
    entry of [admin_users] and that no cache entry vouches for: no
    resolution cached for an entry of [admin_users] names it, and no
    positive membership of it in an admin group is cached, that could
    still be served.  For such an identity an operation of
    [admin_operations] that no earlier rule allows is denied with "Admin
    privileges required".  An identity that is listed in [admin_users], or
    vouched for by a cache entry that is served whenever it is read, is
    still admin during the outage. *)
Theorem outage_fails_closed w u :
  (u ∉ admin_users (self w) -> ~ vouched_for env w u ->
   (is_user_admin env u w).1 = Return false
   /\ forall op t,
        settled_early (self w) u op t = false ->
        op ∉ user_operations (self w) ->
        op ∈ admin_operations (self w) ->
        (check_user_permission env u op t w).1
        = Return {| allowed := false;
                    reason := "Admin privileges required" |})
  /\ (u ∈ admin_users (self w) \/ firmly_vouched_for env w u ->
      (is_user_admin env u w).1 = Return true).
Proof.
  split.
  - intros Hnin Hnv. split.
    + destruct (outage_is_user_admin_false u w) as (w' & ->); done.
    + intros op t Hs Hnu Ha.
      assert (Hself : self (attempt_logged u op w) = self w).
      { unfold attempt_logged. by destruct (log_access_attempts (self w)). }
      assert (Htick : tick (attempt_logged u op w) = tick w).
      { unfold attempt_logged. by destruct (log_access_attempts (self w)). }
      rewrite check_user_permission_unfold, Hs.
      destruct (outage_is_user_admin_false u (attempt_logged u op w))
        as (w1 & ->).
      { by rewrite Hself. }
      { unfold vouched_for, resolution_cached, membership_cached,
          may_be_served. by rewrite Hself, Htick. }
      simpl. unfold settled_early in Hs.
      apply orb_false_iff in Hs as [Hen Hss].
      unfold first_matching_rule. rewrite Hen, Hss.
      by rewrite (bool_decide_eq_false_2 _ Hnu), (bool_decide_eq_true_2 _ Ha).
  - intros Hwhy. by destruct (outage_is_user_admin_true u w Hwhy) as (w' & ->).
Qed.

End Outage.

Lemma outage_env_is_outage : directory_outage outage_env.
Proof.
  unfold directory_outage, always_SlackApiError. simpl.
  repeat split; intros; by eexists.
Qed.

(** C2, as stated, fails: membership in [admin_users] is tested before any
    directory call, so an identity that is itself an entry of the admin
    list stays admin during a total outage. *)
Lemma outage_listed_admin_counterexample :
  directory_outage outage_env
  /\ (is_user_admin outage_env "U0000000001" listed_world).1 = Return true.
Proof. split; [exact outage_env_is_outage|]. vm_compute. reflexivity. Qed.

Lemma frozen_outage_env_is_outage : directory_outage frozen_outage_env.
Proof.
  unfold directory_outage, always_SlackApiError. simpl.
  repeat split; intros; by eexists.
Qed.

(** [U2] is not listed: with empty caches it is no admin during the
    outage and is denied [create_cluster].  Once its membership of [dba]
    is cached, that entry vouches for [U2] and for nobody else: [U1] is
    still no admin, and [U2] is admin for as long as the entry is
    served. *)
Lemma outage_fails_closed_witness :
  (is_user_admin outage_env "U2" listed_world).1 = Return false
  /\ (check_user_permission outage_env "U2" "create_cluster" None
        listed_world).1
     = Return {| allowed := false; reason := "Admin privileges required" |}
  /\ (is_user_admin outage_env "U1" dba_member_world).1 = Return false
  /\ (is_user_admin frozen_outage_env "U2" dba_member_world).1 = Return true.
Proof.
  destruct (outage_fails_closed outage_env outage_env_is_outage
              listed_world "U2") as [[H1 H2] _].
  - decide_by_computation.
  - intros [(entry & cached & _ & _ & Hc & _)|(group & cached & _ & Hc & _)];
      vm_compute in Hc; discriminate.
  - split; [exact H1|]. split; [|split].
    + apply H2.
      * vm_compute. reflexivity.
      * decide_by_computation.
      * decide_by_computation.
    + destruct (outage_fails_closed outage_env outage_env_is_outage
                  dba_member_world "U1") as [[H _] _]; [| |exact H].
      * decide_by_computation.
      * intros [(entry & cached & _ & _ & Hc & _)
               |(group & cached & Hg & Hc & _)].
        -- vm_compute in Hc. discriminate.
        -- assert (group = "dba") as ->.
           { apply (elem_of_singleton (C := gset string)). exact Hg. }
           vm_compute in Hc. discriminate.
    + destruct (outage_fails_closed frozen_outage_env
                  frozen_outage_env_is_outage dba_member_world "U2")
        as [_ H].
      apply H. right. right.
      exists "dba", {| me_is_member := true; me_timestamp := 2 |}.
      split; [decide_by_computation|].
      split; [vm_compute; reflexivity|].
      split; [reflexivity|].
      intros n _. vm_compute. reflexivity.
Defined.

(** * The username cache *)

Lemma Qltb_true x y : Qltb x y = true <-> (x < y)%Q.
Proof.
  unfold Qltb. rewrite negb_true_iff.
  destruct (Qle_bool y x) eqn:E.
  - apply Qle_bool_iff in E. split; [done|]. intros H.
    exfalso. by apply (Qlt_not_le x y).
  - split; [|done]. intros _. apply Qnot_le_lt. intros H.
    apply Qle_bool_iff in H. congruence.
Qed.

Lemma Qltb_false x y : Qltb x y = false <-> (y <= x)%Q.
Proof.
  unfold Qltb. rewrite negb_false_iff. apply Qle_bool_iff.
Qed.

Section UsernameCache.

Variable env : Env.

(** One run of [resolve_username_to_user_id] issues one [users_list] call,
    followed by at most one [users_lookupByEmail] call. *)
Lemma resolve_username_calls username w :
  exists tail,
    calls (resolve_username_to_user_id env username w).2
    = calls w ++ CallUsersList :: tail
    /\ (tail = [] \/ tail = [CallUsersLookupByEmail username]).
Proof.
  unfold resolve_username_to_user_id, except_SlackApiError, bind, slack.
  destruct (users_list env (tick w)) as [response|[msg|msg]]; simpl;
    [|exists []; by split; [|left] ..].
  destruct (if ul_ok response then _ else _); simpl;
    [exists []; by split; [|left]|].
  destruct (contains "@" username); simpl; [|exists []; by split; [|left]].
  destruct (users_lookupByEmail env _ username) as [r|[msg|msg]]; simpl.
  - destruct (le_ok r); simpl; rewrite <- app_assoc; eexists;
      (split; [done|by right]).
  - rewrite <- app_assoc. eexists. split; [done|by right].
  - rewrite <- app_assoc. eexists. split; [done|by right].
Qed.

(** A miss of the cache block: no entry, or an entry at least one TTL
    old. *)
Lemma cached_user_id_miss key w :
  (forall entry,
     username_to_id_cache (self w) !! key = Some entry ->
     (cache_ttl (self w) <= clock env (tick w) - ue_timestamp entry)%Q) ->
  exists w0,
    cached_user_id env key w = (Return None, w0)
    /\ self w0 = self w /\ calls w0 = calls w.
Proof.
  intros Hold. unfold cached_user_id, bind, get_self, now_timestamp, ret.
  simpl. destruct (username_to_id_cache (self w) !! key) as [entry|]; simpl.
  - rewrite (proj2 (Qltb_false _ _) (Hold entry eq_refl)). eauto.
  - eauto.
Qed.

Lemma cached_user_id_miss_inv key w w0 :
  cached_user_id env key w = (Return None, w0) ->
  forall entry,
    username_to_id_cache (self w) !! key = Some entry ->
    (cache_ttl (self w) <= clock env (tick w) - ue_timestamp entry)%Q.
Proof.
  unfold cached_user_id, bind, get_self, now_timestamp, ret. simpl.
  intros H entry He. rewrite He in H. simpl in H.
  destruct (Qltb _ _) eqn:E; [discriminate|]. by apply Qltb_false.
Qed.

(** A hit: the entry is younger than the TTL, and only the clock is
    read. *)
Lemma cached_user_id_hit key w entry :
  username_to_id_cache (self w) !! key = Some entry ->
  (clock env (tick w) - ue_timestamp entry < cache_ttl (self w))%Q ->
  cached_user_id env key w
  = (Return (Some (ue_user_id entry)),
     {| self := self w; tick := S (tick w); calls := calls w;
        logs := logs w |}).
Proof.
  intros He Hlt. unfold cached_user_id, bind, get_self, now_timestamp, ret.
  simpl. rewrite He. simpl. by rewrite (proj2 (Qltb_true _ _) Hlt).
Qed.

(** After a miss the directory is asked: the next call is [users_list]. *)
Lemma resolve_admin_entry_miss_calls entry w w0 :
  canonical_id entry = false ->
  cached_user_id env (username_cache_key (lstrip "@" entry)) w
  = (Return None, w0) ->
  calls w0 = calls w ->
  exists rest,
    calls (resolve_admin_entry_to_user_id env entry w).2
    = calls w ++ CallUsersList :: rest.
Proof.
  intros Hshape Hmiss Hc. unfold resolve_admin_entry_to_user_id.
  rewrite Hshape, (bind_Return _ _ _ _ _ Hmiss).
  destruct (resolve_username_calls (lstrip "@" entry) w0)
    as (tail & Hcalls & _).
  unfold bind.
  destruct (resolve_username_to_user_id env (lstrip "@" entry) w0)
    as [[r|e] w1]; simpl in *.
  - pose proof (evolves_cache_user_id env
                  (username_cache_key (lstrip "@" entry)) r w1)
      as (_ & [k Hk] & _).
    destruct (cache_user_id env _ r w1) as [[[]|e] w2]; simpl in *;
      exists (tail ++ k); rewrite Hk, Hcalls, Hc, <- app_assoc; done.
  - exists tail. by rewrite Hcalls, Hc.
Qed.

(** C10. When [resolve_username_to_user_id] finds no user id (directory
    error or no matching user), [resolve_admin_entry_to_user_id] returns
    none and leaves the username cache as it was; so a later attempt for
    the same entry, with that cache and a clock that has not gone back,
    asks the directory again. *)
Theorem failed_resolution_not_cached entry w w0 w1 :
  canonical_id entry = false ->
  cached_user_id env (username_cache_key (lstrip "@" entry)) w
  = (Return None, w0) ->
  resolve_username_to_user_id env (lstrip "@" entry) w0 = (Return None, w1) ->
  resolve_admin_entry_to_user_id env entry w = (Return None, w1)
  /\ username_to_id_cache (self w1) = username_to_id_cache (self w)
  /\ forall w2,
       username_to_id_cache (self w2) = username_to_id_cache (self w1) ->
       cache_ttl (self w2) = cache_ttl (self w) ->
       (clock env (tick w) <= clock env (tick w2))%Q ->
       exists rest,
         calls (resolve_admin_entry_to_user_id env entry w2).2
         = calls w2 ++ CallUsersList :: rest.
Proof.
  intros Hshape Hmiss Hres.
  assert (Hs0 : self w0 = self w).
  { by destruct (cached_user_id_inv env _ _ _ _ Hmiss). }
  assert (Hs1 : self w1 = self w0).
  { pose proof (evolves_resolve_username_to_user_id env (lstrip "@" entry) w0)
      as Hev. rewrite Hres in Hev. simpl in Hev.
    clear -Hres Hev.
    revert Hres. unfold resolve_username_to_user_id, except_SlackApiError,
      bind, slack, logger_error, emit, ret.
    repeat case_match; simplify_eq; intros; simplify_eq; done. }
  assert (Hcache : username_to_id_cache (self w1)
                   = username_to_id_cache (self w)) by congruence.
  split; [|split; [exact Hcache|]].
  - unfold resolve_admin_entry_to_user_id.
    rewrite Hshape, (bind_Return _ _ _ _ _ Hmiss),
      (bind_Return _ _ _ _ _ Hres). done.
  - intros w2 Hc2 Httl Hclock.
    destruct (cached_user_id_miss (username_cache_key (lstrip "@" entry)) w2)
      as (w3 & Hmiss2 & _ & Hcalls).
    { intros e He. rewrite Hc2, Hcache in He.
      pose proof (cached_user_id_miss_inv _ _ _ Hmiss e He) as Hold.
      rewrite Httl. lra. }
    by apply (resolve_admin_entry_miss_calls entry w2 w3).
Qed.

End UsernameCache.

Lemma failed_resolution_not_cached_witness :
  resolve_admin_entry_to_user_id healthy_env "@ghost" scenario_world
  = (Return None, ghost_resolved_world)
  /\ username_to_id_cache (self ghost_resolved_world)
     = username_to_id_cache (self scenario_world)
  /\ exists rest,
       calls (resolve_admin_entry_to_user_id healthy_env "@ghost"
                ghost_resolved_world).2
       = calls ghost_resolved_world ++ CallUsersList :: rest.
Proof.
  destruct (failed_resolution_not_cached healthy_env "@ghost"
              scenario_world scenario_world ghost_resolved_world)
    as (H1 & H2 & H3).
  - vm_compute. reflexivity.
  - vm_compute. reflexivity.
  - vm_compute. reflexivity.
  - split; [exact H1|]. split; [exact H2|]. apply H3.
    + reflexivity.
    + reflexivity.
    + vm_compute. discriminate.
Defined.

Section ResolveTwice.

Variable env : Env.

(** C9, amended.  When an admin-list handle (an entry not shaped like a
    user id) misses the cache and the directory resolves it to a non-empty
    id, the resolution issues one [users_list] call (followed by at most
    one [users_lookupByEmail] call) and caches the id with the time of
    insertion.  While that entry is in the cache and the TTL is 300
    seconds, a further resolution at a time [now] with
    [now - insertedAt < 300] returns the cached id and issues no Slack
    call; one with [now - insertedAt >= 300] asks [users_list] again. *)
Theorem resolve_twice entry uid w w0 wr :
  canonical_id entry = false ->
  cached_user_id env (username_cache_key (lstrip "@" entry)) w
  = (Return None, w0) ->
  resolve_username_to_user_id env (lstrip "@" entry) w0
  = (Return (Some uid), wr) ->
  uid <> "" ->
  let key := username_cache_key (lstrip "@" entry) in
  let cached := {| ue_user_id := uid; ue_timestamp := clock env (tick wr) |} in
  exists w1,
    resolve_admin_entry_to_user_id env entry w = (Return (Some uid), w1)
    /\ username_to_id_cache (self w1) !! key = Some cached
    /\ (exists tail,
          calls w1 = calls w ++ CallUsersList :: tail
          /\ (tail = [] \/ tail = [CallUsersLookupByEmail (lstrip "@" entry)]))
    /\ forall w2,
         username_to_id_cache (self w2) !! key = Some cached ->
         cache_ttl (self w2) = 300%Q ->
         ((clock env (tick w2) - ue_timestamp cached < 300)%Q ->
          (resolve_admin_entry_to_user_id env entry w2).1
          = Return (Some uid)
          /\ calls (resolve_admin_entry_to_user_id env entry w2).2
             = calls w2)
         /\ ((300 <= clock env (tick w2) - ue_timestamp cached)%Q ->
             exists rest,
               calls (resolve_admin_entry_to_user_id env entry w2).2
               = calls w2 ++ CallUsersList :: rest).
Proof.
  intros Hshape Hmiss Hres Hne key cached.
  destruct (cached_user_id_inv env _ _ _ _ Hmiss) as (Hs0 & _).
  assert (Hc0 : calls w0 = calls w).
  { revert Hmiss. unfold cached_user_id, bind, get_self, now_timestamp, ret.
    simpl. repeat case_match; intros; simplify_eq; done. }
  destruct (resolve_username_calls env (lstrip "@" entry) w0)
    as (tail & Hcalls & Htail).
  rewrite Hres in Hcalls. simpl in Hcalls.
  eexists. split; [|split; [|split]].
  - unfold resolve_admin_entry_to_user_id.
    rewrite Hshape, (bind_Return _ _ _ _ _ Hmiss),
      (bind_Return _ _ _ _ _ Hres).
    unfold cache_user_id, truthy.
    rewrite (bool_decide_eq_false_2 _ Hne). simpl.
    unfold bind, now_timestamp, get_self, set_self, ret. simpl. reflexivity.
  - simpl. apply lookup_insert_eq.
  - simpl. exists tail. by rewrite Hcalls, Hc0.
  - intros w2 He Httl. split.
    + intros Hlt. unfold resolve_admin_entry_to_user_id. rewrite Hshape.
      rewrite (bind_Return _ _ _ _ _
                 (cached_user_id_hit env key w2 cached He
                    ltac:(by rewrite Httl))).
      done.
    + intros Hge.
      destruct (cached_user_id_miss env key w2) as (w3 & Hmiss2 & _ & Hc3).
      { intros e He'. rewrite He in He'. simplify_eq. by rewrite Httl. }
      by apply (resolve_admin_entry_miss_calls env entry w2 w3).
Qed.

End ResolveTwice.

(** C9, as stated, fails for a handle the directory does not know: nothing
    is cached for it, so resolving it twice within the TTL window issues
    two [users_list] calls. *)
Lemma resolve_twice_counterexample :
  (resolve_admin_entry_to_user_id healthy_env "@ghost" scenario_world).1
  = Return None
  /\ (clock healthy_env (tick ghost_resolved_world)
      - clock healthy_env (tick scenario_world) < 300)%Q
  /\ calls (resolve_admin_entry_to_user_id healthy_env "@ghost"
              ghost_resolved_world).2
     = [CallUsersList; CallUsersList].
Proof. vm_compute. done. Qed.

Lemma resolve_twice_witness :
  (resolve_admin_entry_to_user_id healthy_env "@alice" scenario_world).1
  = Return (Some "U2")
  /\ (resolve_admin_entry_to_user_id healthy_env "@alice"
        alice_resolved_world).1
     = Return (Some "U2")
  /\ calls (resolve_admin_entry_to_user_id healthy_env "@alice"
              alice_resolved_world).2
     = calls alice_resolved_world.
Proof.
  destruct (resolve_twice healthy_env "@alice" "U2" scenario_world
              scenario_world
              (resolve_username_to_user_id healthy_env "alice"
                 scenario_world).2)
    as (w1 & H1 & H2 & _ & H3).
  - vm_compute. reflexivity.
  - vm_compute. reflexivity.
  - vm_compute. reflexivity.
  - discriminate.
  - split; [by rewrite H1|].
    apply (H3 alice_resolved_world).
    + vm_compute. reflexivity.
    + reflexivity.
    + vm_compute. reflexivity.
Defined.

(** * The group-membership cache *)

Section GroupCache.

Variable env : Env.

Lemma usergroups_loop_no_match gs u g key w :
  no_handle g gs -> usergroups_loop env gs u g key w = (Return None, w).
Proof.
  induction 1 as [|x gs Hx _ IH]; simpl; [done|].
  by rewrite (bool_decide_eq_false_2 _ Hx).
Qed.

(** The loop up to the first group with the handle, when the members call
    for it raises. *)
Lemma usergroups_loop_raise pre x post u g key w e :
  no_handle g pre -> ug_handle x = g ->
  usergroups_users_list env (tick w) (ug_id x) = Raise e ->
  usergroups_loop env (pre ++ x :: post) u g key w
  = (Raise e,
     {| self := self w; tick := S (tick w);
        calls := calls w ++ [CallUsergroupsUsersList (ug_id x)];
        logs := logs w |}).
Proof.
  intros Hpre Hx He. induction Hpre as [|y pre Hy _ IH]; simpl.
  - rewrite (bool_decide_eq_true_2 _ Hx). unfold bind, slack.
    by rewrite He.
  - by rewrite (bool_decide_eq_false_2 _ Hy).
Qed.

Lemma cached_membership_calls key w r w0 :
  cached_membership env key w = (r, w0) -> calls w0 = calls w.
Proof.
  unfold cached_membership, bind, get_self, now_timestamp, ret. simpl.
  repeat case_match; intros; simplify_eq; done.
Qed.

Lemma cached_membership_absent key w :
  group_membership_cache (self w) !! key = None ->
  cached_membership env key w = (Return None, w).
Proof.
  intros H. unfold cached_membership, bind, get_self. simpl. by rewrite H.
Qed.

(** The [try] block starts with a [usergroups_list] call. *)
Lemma query_membership_calls u g key w :
  exists rest,
    calls (query_membership env u g key w).2
    = calls w ++ CallUsergroupsList :: rest.
Proof.
  unfold query_membership, except_SlackApiError, bind, slack.
  destruct (usergroups_list env (tick w)) as [response|[msg|msg]]; simpl;
    [|by exists [] ..].
  destruct (gl_ok response); simpl; [|by exists []].
  match goal with |- context [usergroups_loop env ?gs u g key ?w1] =>
    pose proof (evolves_usergroups_loop env gs u g key w1)
      as (_ & [k Hk] & _);
    destruct (usergroups_loop env gs u g key w1) as [[o|[m|m]] w2] end;
    simpl in *; exists k; rewrite Hk, <- app_assoc; done.
Qed.

(** With no entry for the pair, the membership test asks the directory. *)
Lemma is_user_in_group_asks u g w :
  group_membership_cache (self w) !! group_cache_key u g = None ->
  exists rest,
    calls (is_user_in_group env u g w).2 = calls w ++ CallUsergroupsList :: rest.
Proof.
  intros Hnone. unfold is_user_in_group.
  rewrite (bind_Return _ _ _ _ _ (cached_membership_absent _ _ Hnone)).
  destruct (query_membership_calls u g (group_cache_key u g) w)
    as (rest & Hc).
  unfold bind.
  destruct (query_membership env u g (group_cache_key u g) w)
    as [[o|e] w1]; simpl in *; eauto.
Qed.

(** C4, amended.  On a cache miss, when [usergroups_list] succeeds but
    lists no group with the handle, [is_user_in_group] returns false and
    does not cache anything: the cache is left as it was, and if the pair
    has no entry, the very next test of the pair asks the directory again.
    A [SlackApiError] of [usergroups_list], or of [usergroups_users_list]
    for the group found, likewise returns false and leaves the cache as it
    was. *)
Theorem group_lookup_failures_not_cached u g w w0 :
  cached_membership env (group_cache_key u g) w = (Return None, w0) ->
  (forall response,
     usergroups_list env (tick w0) = Return response ->
     gl_ok response = true ->
     no_handle g (gl_usergroups response) ->
     exists w1,
       is_user_in_group env u g w = (Return false, w1)
       /\ group_membership_cache (self w1) = group_membership_cache (self w)
       /\ (group_membership_cache (self w) !! group_cache_key u g = None ->
           exists rest,
             calls (is_user_in_group env u g w1).2
             = calls w1 ++ CallUsergroupsList :: rest))
  /\ (forall msg,
        usergroups_list env (tick w0) = Raise (SlackApiError msg) ->
        exists w1,
          is_user_in_group env u g w = (Return false, w1)
          /\ group_membership_cache (self w1)
             = group_membership_cache (self w))
  /\ (forall response pre usergroup post msg,
        usergroups_list env (tick w0) = Return response ->
        gl_ok response = true ->
        gl_usergroups response = pre ++ usergroup :: post ->
        no_handle g pre -> ug_handle usergroup = g ->
        usergroups_users_list env (S (tick w0)) (ug_id usergroup)
        = Raise (SlackApiError msg) ->
        exists w1,
          is_user_in_group env u g w = (Return false, w1)
          /\ group_membership_cache (self w1)
             = group_membership_cache (self w)).
Proof.
  intros Hmiss.
  destruct (cached_membership_inv env _ _ _ _ Hmiss) as (Hs0 & _).
  unfold is_user_in_group. rewrite (bind_Return _ _ _ _ _ Hmiss).
  split; [|split].
  - intros response Hresp Hok Hno.
    unfold query_membership, except_SlackApiError, bind, slack.
    rewrite Hresp, Hok. simpl. rewrite usergroups_loop_no_match by done.
    simpl. eexists. split; [done|]. simpl. split; [by rewrite Hs0|].
    intros Hnone. apply is_user_in_group_asks. simpl. by rewrite Hs0.
  - intros msg Hresp.
    unfold query_membership, except_SlackApiError, bind, slack.
    rewrite Hresp. simpl. eexists. split; [done|]. simpl. by rewrite Hs0.
  - intros response pre x post msg Hresp Hok Hgs Hpre Hx Hmem.
    unfold query_membership, except_SlackApiError, bind, slack.
    rewrite Hresp, Hok, Hgs. simpl.
    rewrite (usergroups_loop_raise pre x post u g _ _ (SlackApiError msg))
      by done.
    simpl. eexists. split; [done|]. simpl. by rewrite Hs0.
Qed.

End GroupCache.

(** C4, as stated, fails: when no listed group has the handle the function
    falls through to [return False] without writing the cache, so the
    repeated test within the TTL window calls [usergroups_list] again. *)
Lemma unknown_group_counterexample :
  (is_user_in_group healthy_env "U1" "dba" scenario_world).1 = Return false
  /\ group_membership_cache (self dba_tested_world)
       !! group_cache_key "U1" "dba" = None
  /\ (clock healthy_env (tick dba_tested_world)
      - clock healthy_env (tick scenario_world) < 300)%Q
  /\ calls (is_user_in_group healthy_env "U1" "dba" dba_tested_world).2
     = [CallUsergroupsList; CallUsergroupsList].
Proof. vm_compute. done. Qed.

Lemma group_lookup_failures_not_cached_witness :
  (exists w1,
     is_user_in_group healthy_env "U1" "dba" scenario_world
     = (Return false, w1)
     /\ group_membership_cache (self w1)
        = group_membership_cache (self scenario_world)
     /\ (group_membership_cache (self scenario_world)
           !! group_cache_key "U1" "dba" = None ->
         exists rest,
           calls (is_user_in_group healthy_env "U1" "dba" w1).2
           = calls w1 ++ CallUsergroupsList :: rest))
  /\ (exists w1,
        is_user_in_group outage_env "U1" "dba" scenario_world
        = (Return false, w1)
        /\ group_membership_cache (self w1)
           = group_membership_cache (self scenario_world)).
Proof.
  split.
  - destruct (group_lookup_failures_not_cached healthy_env "U1" "dba"
                scenario_world scenario_world) as (H & _ & _).
    + vm_compute. reflexivity.
    + apply (H {| gl_ok := true; gl_usergroups := [] |}).
      * reflexivity.
      * reflexivity.
      * constructor.
  - destruct (group_lookup_failures_not_cached outage_env "U1" "dba"
                scenario_world scenario_world) as (_ & H & _).
    + vm_compute. reflexivity.
    + apply (H "service_unavailable"). reflexivity.
Defined.

(** * Clearing the caches *)

Section ClearCache.

Variable env : Env.

(** The configuration loop replaces policy fields and never touches a
    cache. *)
Lemma updates_loop_caches items w o w' :
  updates_loop items w = (o, w') ->
  group_membership_cache (self w') = group_membership_cache (self w)
  /\ username_to_id_cache (self w') = username_to_id_cache (self w).
Proof.
  revert w. induction items as [|[key value] items IH]; intros w; simpl.
  - by intros [= <- <-].
  - unfold bind at 1. unfold get_self at 1.
    intros H. apply bind_inv in H as [(a & w1 & Hstep & H)|(e & Hstep & _)].
    + destruct (IH _ H) as [Hg Hu]. rewrite Hg, Hu. clear -Hstep.
      revert Hstep. unfold to_set, bind, set_self, ret, raise.
      repeat case_match; intros; simplify_eq; done.
    + clear -Hstep.
      revert Hstep. unfold to_set, bind, set_self, ret, raise.
      repeat case_match; intros; simplify_eq; done.
Qed.

(** C3, amended.  [clear_cache] and a completed [update_configuration]
    empty the group-membership cache and nothing else: afterwards the
    membership test of any (identity, group) pair asks the directory
    again, while the username-to-id cache is exactly as before, so an
    identity resolution cached less than one TTL ago is still answered
    from the cache, with no directory call. *)
Theorem clearing_drops_memberships_only w :
  (clear_cache w).1 = Return tt
  /\ group_membership_cache (self (clear_cache w).2) = ∅
  /\ username_to_id_cache (self (clear_cache w).2)
     = username_to_id_cache (self w)
  /\ (forall config_updates w',
        update_configuration env config_updates w = (Return tt, w') ->
        group_membership_cache (self w') = ∅
        /\ username_to_id_cache (self w') = username_to_id_cache (self w))
  /\ (forall w1 u g,
        group_membership_cache (self w1) = ∅ ->
        exists rest,
          calls (is_user_in_group env u g w1).2
          = calls w1 ++ CallUsergroupsList :: rest)
  /\ (forall w1 entry cached,
        canonical_id entry = false ->
        username_to_id_cache (self w1)
          !! username_cache_key (lstrip "@" entry) = Some cached ->
        (clock env (tick w1) - ue_timestamp cached < cache_ttl (self w1))%Q ->
        (resolve_admin_entry_to_user_id env entry w1).1
        = Return (Some (ue_user_id cached))
        /\ calls (resolve_admin_entry_to_user_id env entry w1).2 = calls w1).
Proof.
  split; [done|]. split; [done|]. split; [done|]. split; [|split].
  - intros updates w' H. unfold update_configuration in H.
    apply bind_inv in H as [([] & w1 & Hloop & H)|(e & _ & ?)];
      [|discriminate].
    apply updates_loop_caches in Hloop as [_ Hu].
    revert H. unfold bind, logger_info, emit, get_self, set_self. simpl.
    intros [= <-]. simpl. by rewrite Hu.
  - intros w1 u g Hempty. apply is_user_in_group_asks.
    by rewrite Hempty, lookup_empty.
  - intros w1 entry cached Hshape He Hlt.
    unfold resolve_admin_entry_to_user_id. rewrite Hshape.
    by rewrite (bind_Return _ _ _ _ _
                  (cached_user_id_hit env _ w1 cached He Hlt)).
Qed.

End ClearCache.

(** C3, as stated, fails: [clear_cache] and [update_configuration] clear
    [group_membership_cache] only.  A cached identity resolution survives
    both, and the next permission check that involves it is answered
    without any directory call. *)
Lemma clearing_keeps_usernames_counterexample :
  username_to_id_cache (self alice_checked_world) !! "username:alice"
  = Some {| ue_user_id := "U2"; ue_timestamp := 1 |}
  /\ (check_user_permission healthy_env "U2" "create_cluster" None
        (clear_cache alice_checked_world).2).1
     = Return {| allowed := true; reason := "Admin user" |}
  /\ calls (check_user_permission healthy_env "U2" "create_cluster" None
              (clear_cache alice_checked_world).2).2
     = calls alice_checked_world
  /\ (check_user_permission healthy_env "U2" "create_cluster" None
        (update_configuration healthy_env [] alice_checked_world).2).1
     = Return {| allowed := true; reason := "Admin user" |}
  /\ calls (check_user_permission healthy_env "U2" "create_cluster" None
              (update_configuration healthy_env [] alice_checked_world).2).2
     = calls alice_checked_world.
Proof. vm_compute. done. Qed.

Lemma clearing_drops_memberships_only_witness :
  group_membership_cache (self (clear_cache alice_checked_world).2) = ∅
  /\ (resolve_admin_entry_to_user_id healthy_env "@alice"
        (clear_cache alice_checked_world).2).1
     = Return (Some "U2")
  /\ exists rest,
       calls (is_user_in_group healthy_env "U2" "dba"
                (clear_cache alice_checked_world).2).2
       = calls (clear_cache alice_checked_world).2
         ++ CallUsergroupsList :: rest.
Proof.
  destruct (clearing_drops_memberships_only healthy_env alice_checked_world)
    as (_ & Hg & _ & _ & Hask & Hkeep).
  split; [exact Hg|]. split.
  - apply (Hkeep _ "@alice" {| ue_user_id := "U2"; ue_timestamp := 1 |}).
    + reflexivity.
    + vm_compute. reflexivity.
    + vm_compute. reflexivity.
  - apply Hask. exact Hg.
Defined.

(** * Operation categories against decisions *)

(** X1. For a caller the admin check rejects, RBAC enabled and no target,
    the decision follows the category of the operation except on overlap:
    category "user" is allowed, categories "unknown" and "self_service"
    are denied as unknown operations, and category "admin" is denied
    unless the operation is also a user operation, in which case it is
    allowed although [get_operation_category] calls it "admin". *)
Theorem category_and_decision env w u op w1 :
  rbac_enabled (self w) = true ->
  is_user_admin env u (attempt_logged u op w) = (Return false, w1) ->
  let d := (check_user_permission env u op None w).1 in
  let category := get_operation_category (self w) op in
  (category = "user" ->
   d = Return {| allowed := true; reason := "User operation" |})
  /\ (category = "unknown" \/ category = "self_service" ->
      d = Return {| allowed := false; reason := "Unknown operation" |})
  /\ (category = "admin" ->
      d = Return (if bool_decide (op ∈ user_operations (self w))
                  then {| allowed := true; reason := "User operation" |}
                  else {| allowed := false;
                          reason := "Admin privileges required" |})).
Proof.
  intros Hen Hv d category. subst d category.
  assert (Hs : settled_early (self w) u op None = false).
  { unfold settled_early. rewrite Hen. simpl.
    apply bool_decide_eq_false_2. by intros [_ ?]. }
  rewrite check_user_permission_unfold, Hs, Hv. simpl.
  unfold settled_early in Hs. apply orb_false_iff in Hs as [Hen' Hss].
  unfold first_matching_rule, get_operation_category.
  rewrite Hen', Hss.
  repeat case_bool_decide; repeat split; intros; try done;
    try (destruct_or!; done).
Qed.

Lemma category_and_decision_witness :
  get_operation_category (self scenario_world) "add_ip_whitelist"
  = "self_service"
  /\ (check_user_permission healthy_env "U1" "add_ip_whitelist" None
        scenario_world).1
     = Return {| allowed := false; reason := "Unknown operation" |}.
Proof.
  split; [vm_compute; reflexivity|].
  destruct (category_and_decision healthy_env scenario_world "U1"
              "add_ip_whitelist"
              (is_user_admin healthy_env "U1"
                 (attempt_logged "U1" "add_ip_whitelist" scenario_world)).2)
    as (_ & H & _).
  - reflexivity.
  - vm_compute. reflexivity.
  - apply H. right. vm_compute. reflexivity.
Defined.

(** * Managers without admins *)

(** X2. With no admin user and no admin group configured, nobody is
    admin, and the admin check neither calls Slack nor changes
    anything. *)
Theorem no_admins_configured env w u :
  admin_users (self w) = ∅ ->
  admin_groups (self w) = ∅ ->
  is_user_admin env u w = (Return false, w).
Proof.
  intros Hu Hg. unfold is_user_admin, bind, get_self. simpl.
  rewrite Hu, elements_empty.
  rewrite bool_decide_eq_false_2 by set_solver. simpl.
  by rewrite Hg, elements_empty.
Qed.

Lemma no_admins_configured_witness :
  is_user_admin healthy_env "U1" (fresh_world secure_manager)
  = (Return false, fresh_world secure_manager).
Proof.
  apply no_admins_configured; reflexivity.
Defined.

(** * Loading the configuration *)

(** X3. Loading fails closed.  When [import config] raises anything but
    [ImportError], or a set-valued attribute of the module is not
    iterable, the manager ends up with RBAC enabled, no admin user, no
    admin group and the minimal operation sets, whatever had been
    assigned before the failure; one error record is logged. *)
Theorem load_configuration_fails_closed import_config getenv :
  ~ loadable import_config ->
  self (init import_config getenv) = secure_manager
  /\ exists msg, logs (init import_config getenv) = [LogError msg].
Proof.
  destruct import_config as [[en us gs aos uos sos nt lg]| |msg]; intros Hnl.
  - destruct us as [[?|?]|], gs as [[?|?]|], aos as [[?|?]|],
      uos as [[?|?]|], sos as [[?|?]|];
      try (split;
           [reflexivity
           |exists ("Error loading RBAC configuration: "
                    +:+ "TypeError: 'bool' object is not iterable");
            reflexivity]);
      exfalso; apply Hnl; repeat split.
  - exfalso. by apply Hnl.
  - split; [reflexivity|by eexists].
Qed.

Lemma load_configuration_fails_closed_witness :
  self (init (ConfigModule mistyped_config) (fun _ => None)) = secure_manager.
Proof.
  destruct (load_configuration_fails_closed (ConfigModule mistyped_config)
              (fun _ => None)) as [H _].
  - intros (H & _). exact H.
  - exact H.
Defined.

(** Construction never calls Slack and always starts with empty caches
    and a TTL of 300 seconds, whatever the configuration source. *)
Lemma init_starts_clean import_config getenv :
  group_membership_cache (self (init import_config getenv)) = ∅
  /\ username_to_id_cache (self (init import_config getenv)) = ∅
  /\ cache_ttl (self (init import_config getenv)) = 300%Q
  /\ calls (init import_config getenv) = []
  /\ tick (init import_config getenv) = 0.
Proof.
  destruct import_config as [[en us gs aos uos sos nt lg]| |msg];
    [|repeat split..].
  destruct us as [[?|?]|], gs as [[?|?]|], aos as [[?|?]|],
    uos as [[?|?]|], sos as [[?|?]|]; repeat split.
Qed.

Lemma init_from_environment getenv :
  self (init ConfigMissing getenv)
  = {| admin_users := list_to_set (getenv_list getenv "ADMIN_USERS");
       admin_groups := list_to_set (getenv_list getenv "ADMIN_GROUPS");
       admin_operations := default_admin_operations;
       user_operations := default_user_operations;
       self_service_operations := default_self_service_operations;
       rbac_enabled :=
         bool_decide (lower (default "true" (getenv "RBAC_ENABLED"))
                      = "true");
       notify_admin_on_denied := true;
       log_access_attempts := true;
       group_membership_cache := ∅; username_to_id_cache := ∅;
       cache_ttl := 300 |}.
Proof. reflexivity. Qed.

(** X4. Without a [config] module, RBAC is enabled only if [RBAC_ENABLED]
    is unset or spells "true" in some letter case; any other value, such
    as "1" or "yes", switches access control off, and every permission
    check is then allowed with reason "RBAC disabled" without consulting
    the directory. *)
Theorem environment_flag_disables getenv value env u op t :
  getenv "RBAC_ENABLED" = Some value ->
  lower value <> "true" ->
  check_user_permission env u op t (init ConfigMissing getenv)
  = (Return {| allowed := true; reason := "RBAC disabled" |},
     init ConfigMissing getenv).
Proof.
  intros Hget Hne.
  unfold check_user_permission, bind at 1, get_self at 1.
  rewrite init_from_environment. simpl. rewrite Hget. simpl.
  by rewrite (bool_decide_eq_false_2 _ Hne).
Qed.

Lemma environment_flag_disables_witness :
  (check_user_permission healthy_env "U1" "drop_database" None
     (init ConfigMissing (getenv_rbac "1"))).1
  = Return {| allowed := true; reason := "RBAC disabled" |}.
Proof.
  rewrite (environment_flag_disables (getenv_rbac "1") "1" healthy_env
             "U1" "drop_database" None).
  - reflexivity.
  - reflexivity.
  - vm_compute. discriminate.
Defined.

(** * Invariants of the manager *)

(** Any world relation that the primitive steps respect is respected by
    the whole engine. *)
Section GenericFrame.

Variable env : Env.
Variable R : relation World.
Context `{!PreOrder R}.

Hypothesis R_now : stable R (now_timestamp env).
Hypothesis R_slack :
  forall A c (answer : nat -> Outcome A), stable R (slack c answer).
Hypothesis R_emit : forall r, stable R (emit r).
Hypothesis R_cache_user_id :
  forall username uid,
    stable R (cache_user_id env (username_cache_key username) uid).
Hypothesis R_cache_membership :
  forall u g b, stable R (cache_membership env (group_cache_key u g) b).

Ltac frame_step :=
  first
    [ apply stable_ret; tc_solve
    | apply stable_get_self; tc_solve
    | apply R_now
    | apply R_slack
    | apply R_emit
    | apply R_cache_user_id
    | apply R_cache_membership
    | apply stable_bind; [tc_solve | | intros ?]
    | apply stable_except_SlackApiError; [tc_solve | | intros ?]
    | apply stable_except_Exception; [tc_solve | | intros ?]
    | match goal with
      | |- stable _ (if ?b then _ else _) => destruct b
      | |- stable _ (match ?x with Some _ => _ | None => _ end) => destruct x
      end ].

Lemma frame_resolve_admin_entry entry :
  stable R (resolve_admin_entry_to_user_id env entry).
Proof.
  unfold resolve_admin_entry_to_user_id, cached_user_id,
    resolve_username_to_user_id, logger_error.
  repeat frame_step.
Qed.

Lemma frame_usergroups_loop gs u g u' g' :
  stable R (usergroups_loop env gs u g (group_cache_key u' g')).
Proof. induction gs as [|x gs IH]; simpl; repeat (assumption || frame_step). Qed.

Lemma frame_is_user_in_group u g : stable R (is_user_in_group env u g).
Proof.
  unfold is_user_in_group, cached_membership, query_membership, logger_error.
  repeat first [apply frame_usergroups_loop | frame_step].
Qed.

Lemma frame_admin_entries_loop l u : stable R (admin_entries_loop env l u).
Proof.
  induction l as [|x l IH]; simpl;
    repeat first [assumption | apply frame_resolve_admin_entry | frame_step].
Qed.

Lemma frame_admin_groups_loop l u : stable R (admin_groups_loop env l u).
Proof.
  induction l as [|x l IH]; simpl;
    repeat first [assumption | apply frame_is_user_in_group | frame_step].
Qed.

Lemma frame_is_user_admin u : stable R (is_user_admin env u).
Proof.
  unfold is_user_admin.
  repeat first [apply frame_admin_entries_loop
               |apply frame_admin_groups_loop | frame_step].
Qed.

Lemma frame_notify_loop l msg : stable R (notify_loop env l msg).
Proof.
  induction l as [|x l IH]; simpl; unfold logger_error;
    repeat (assumption || frame_step).
Qed.

Lemma frame_notify u op : stable R (notify_admin_of_denied_access env u op).
Proof.
  unfold notify_admin_of_denied_access, logger_error.
  repeat first [apply frame_notify_loop | frame_step].
Qed.

Lemma frame_check_user_permission u op t :
  stable R (check_user_permission env u op t).
Proof.
  unfold check_user_permission, logger_info.
  repeat first [apply frame_is_user_admin | apply frame_notify | frame_step].
Qed.

End GenericFrame.

Global Instance keeps_preorder P : PreOrder (keeps P).
Proof. split; unfold keeps; [intros w; tauto|intros w1 w2 w3; tauto]. Qed.

(** The configuration loop touches the five fields it names, nothing
    else. *)
Lemma updates_loop_untouched items w o w' :
  updates_loop items w = (o, w') ->
  self_service_operations (self w') = self_service_operations (self w)
  /\ notify_admin_on_denied (self w') = notify_admin_on_denied (self w)
  /\ log_access_attempts (self w') = log_access_attempts (self w)
  /\ cache_ttl (self w') = cache_ttl (self w)
  /\ logs w' = logs w /\ calls w' = calls w.
Proof.
  revert w. induction items as [|[key value] items IH]; intros w; simpl.
  - by intros [= <- <-].
  - unfold bind at 1. unfold get_self at 1.
    intros H. apply bind_inv in H as [(a & w1 & Hstep & H)|(e & Hstep & _)].
    + destruct (IH _ H) as (-> & -> & -> & -> & -> & ->). clear -Hstep.
      revert Hstep. unfold to_set, bind, set_self, ret, raise.
      repeat case_match; intros; simplify_eq; done.
    + clear -Hstep.
      revert Hstep. unfold to_set, bind, set_self, ret, raise.
      repeat case_match; intros; simplify_eq; done.
Qed.

Section Invariant.

Variable env : Env.

Lemma well_formed_check_user_permission u op t :
  stable (keeps well_formed) (check_user_permission env u op t).
Proof.
  apply frame_check_user_permission; try tc_solve.
  - intros w H. exact H.
  - intros A c answer w H. exact H.
  - intros r w H. exact H.
  - intros username uid w (Httl & Hids & Hkeys). unfold cache_user_id.
    destruct uid as [uid|]; [|done].
    destruct (truthy (Some uid)) eqn:Ht; [|done]. simpl.
    apply negb_true_iff, bool_decide_eq_false in Ht.
    split; [done|]. split.
    + intros key e. simpl. rewrite lookup_insert.
      case_decide; [|apply Hids]. by intros [= <-].
    + intros key e. simpl. rewrite lookup_insert.
      case_decide; [|apply Hkeys]. intros _. by eexists.
  - intros g u' b w H. exact H.
Qed.

Lemma well_formed_is_user_admin u :
  stable (keeps well_formed) (is_user_admin env u).
Proof.
  apply frame_is_user_admin; try tc_solve.
  - intros w H. exact H.
  - intros A c answer w H. exact H.
  - intros r w H. exact H.
  - intros username uid w (Httl & Hids & Hkeys). unfold cache_user_id.
    destruct uid as [uid|]; [|done].
    destruct (truthy (Some uid)) eqn:Ht; [|done]. simpl.
    apply negb_true_iff, bool_decide_eq_false in Ht.
    split; [done|]. split.
    + intros key e. simpl. rewrite lookup_insert.
      case_decide; [|apply Hids]. by intros [= <-].
    + intros key e. simpl. rewrite lookup_insert.
      case_decide; [|apply Hkeys]. intros _. by eexists.
  - intros g u' b w H. exact H.
Qed.

Lemma well_formed_update_configuration updates :
  stable (keeps well_formed) (update_configuration env updates).
Proof.
  intros w (Httl & Hids & Hkeys). unfold update_configuration, bind.
  destruct (updates_loop updates w) as [[[]|e] w1] eqn:E; simpl;
    destruct (updates_loop_untouched _ _ _ _ E) as (_ & _ & _ & Ht & _);
    destruct (updates_loop_caches _ _ _ _ E) as (_ & Hu);
    (split; [simpl; congruence|]);
    split; intros key e'; simpl; rewrite Hu; eauto.
Qed.

Lemma well_formed_run_operation o :
  stable (keeps well_formed) (fun w => (Return tt, run_operation env o w)).
Proof.
  intros w. destruct o as [u op t|u| |updates]; simpl.
  - apply well_formed_check_user_permission.
  - apply well_formed_is_user_admin.
  - intros H. exact H.
  - apply well_formed_update_configuration.
Qed.

(** X5. Every manager reached from construction by permission checks,
    admin checks, cache clears and configuration updates, against any
    workspace, has a TTL of 300 seconds, holds no empty id in its username
    cache, and keys that cache by formatted usernames only. *)
Theorem reachable_well_formed import_config getenv os :
  well_formed (self (run_operations env os (init import_config getenv))).
Proof.
  assert (Hinit : well_formed (self (init import_config getenv))).
  { destruct (init_starts_clean import_config getenv)
      as (_ & Hu & Httl & _).
    split; [done|]. split; intros key e; rewrite Hu, lookup_empty; done. }
  revert Hinit. generalize (init import_config getenv).
  unfold run_operations.
  induction os as [|o os IH]; intros w Hw; simpl; [done|].
  apply IH. by apply (well_formed_run_operation o w).
Qed.

End Invariant.

(** * Runtime configuration updates *)

Section Updates.

Variable env : Env.

Lemma updates_loop_accepted items w :
  Forall accepted items -> exists w', updates_loop items w = (Return tt, w').
Proof.
  intros H. revert w. induction H as [|[key value] items Hx _ IH]; intros w.
  { simpl. eauto. }
  simpl. unfold bind at 1. unfold get_self at 1.
  assert (exists w1,
    (if bool_decide (key = "admin_users")
     then let! v := to_set value in set_self (set_admin_users v (self w))
     else if bool_decide (key = "admin_groups")
     then let! v := to_set value in set_self (set_admin_groups v (self w))
     else if bool_decide (key = "admin_operations")
     then let! v := to_set value in
          set_self (set_admin_operations v (self w))
     else if bool_decide (key = "user_operations")
     then let! v := to_set value in set_self (set_user_operations v (self w))
     else if bool_decide (key = "rbac_enabled")
     then set_self (set_rbac_enabled (to_flag value) (self w))
     else ret tt) w = (Return tt, w1)) as [w1 Hstep].
  { destruct value as [l|b]; simpl in Hx.
    - repeat case_bool_decide; eexists; reflexivity.
    - unfold set_valued in Hx.
      repeat (apply orb_false_iff in Hx as [Hx ?]).
      repeat case_bool_decide; try done; eexists; reflexivity. }
  rewrite (bind_Return _ _ _ _ _ Hstep). apply IH.
Qed.

Lemma updates_loop_rejected items w :
  ~ Forall accepted items ->
  exists msg w', updates_loop items w = (Raise (OtherException msg), w').
Proof.
  intros H. apply not_Forall_Exists in H; [|apply _]. revert w.
  induction items as [|[key value] items IH]; intros w.
  { by apply Exists_nil in H. }
  simpl. unfold bind at 1. unfold get_self at 1.
  destruct (decide (accepted (key, value))) as [Hacc|Hrej].
  - destruct (updates_loop_accepted [(key, value)] w) as (w1 & Hone).
    { by constructor. }
    simpl in Hone. unfold bind at 1 in Hone. unfold get_self at 1 in Hone.
    apply bind_inv in Hone as [([] & w2 & Hstep & [= <-])|(e & _ & ?)];
      [|discriminate].
    rewrite (bind_Return _ _ _ _ _ Hstep). apply IH.
    apply Exists_cons in H as [H|H]; [by destruct H|done].
  - destruct value as [l|b]; [by destruct Hrej|]. simpl in Hrej.
    apply not_false_is_true in Hrej. unfold set_valued in Hrej.
    eexists _, w. unfold bind, to_set, raise.
    repeat case_bool_decide; try reflexivity; simpl in Hrej; discriminate.
Qed.

(** X6. For updates whose values are lists of strings or booleans (the
    values of [ConfigValue]; other values are outside this statement),
    [update_configuration] completes exactly when no set-valued key
    ([admin_users], [admin_groups], [admin_operations], [user_operations])
    carries a boolean: a list is accepted under every key, a boolean
    under [rbac_enabled] and under the keys the function ignores.  When it
    completes it logs one info record and empties the group-membership
    cache; when a set-valued key carries a boolean it raises a
    [TypeError], logs nothing and leaves the group-membership cache
    uncleared. *)
Theorem update_configuration_outcome updates w :
  (Forall accepted updates ->
   (update_configuration env updates w).1 = Return tt
   /\ group_membership_cache (self (update_configuration env updates w).2) = ∅
   /\ logs (update_configuration env updates w).2
      = logs w ++ [LogInfo ("RBAC configuration updated: "
                            +:+ repr_updates env updates)])
  /\ (~ Forall accepted updates ->
      (exists msg,
         (update_configuration env updates w).1
         = Raise (OtherException msg))
      /\ group_membership_cache (self (update_configuration env updates w).2)
         = group_membership_cache (self w)
      /\ logs (update_configuration env updates w).2 = logs w).
Proof.
  split; intros H.
  - destruct (updates_loop_accepted updates w H) as (w1 & Hloop).
    unfold update_configuration. rewrite (bind_Return _ _ _ _ _ Hloop).
    destruct (updates_loop_untouched _ _ _ _ Hloop)
      as (_ & _ & _ & _ & Hlogs & _).
    repeat split. simpl. by rewrite Hlogs.
  - destruct (updates_loop_rejected updates w H) as (msg & w1 & Hloop).
    unfold update_configuration. rewrite (bind_Raise _ _ _ _ _ Hloop).
    destruct (updates_loop_untouched _ _ _ _ Hloop)
      as (_ & _ & _ & _ & Hlogs & _).
    destruct (updates_loop_caches _ _ _ _ Hloop) as (Hg & _).
    simpl. eauto.
Qed.

(** X7. Whatever the updates and whether or not it completes,
    [update_configuration] never changes [self_service_operations],
    [notify_admin_on_denied], [log_access_attempts], the TTL or the
    username cache, and never calls Slack: items with those names are
    ignored like any unknown key. *)
Theorem update_configuration_untouched updates w :
  let w' := (update_configuration env updates w).2 in
  self_service_operations (self w') = self_service_operations (self w)
  /\ notify_admin_on_denied (self w') = notify_admin_on_denied (self w)
  /\ log_access_attempts (self w') = log_access_attempts (self w)
  /\ cache_ttl (self w') = cache_ttl (self w)
  /\ username_to_id_cache (self w') = username_to_id_cache (self w)
  /\ calls w' = calls w.
Proof.
  unfold update_configuration, bind.
  destruct (updates_loop updates w) as [[[]|e] w1] eqn:E; simpl;
    destruct (updates_loop_untouched _ _ _ _ E)
      as (Hs & Hn & Hl & Ht & _ & Hc);
    destruct (updates_loop_caches _ _ _ _ E) as (_ & Hu);
    repeat split; done.
Qed.

End Updates.

Lemma update_configuration_outcome_witness :
  (update_configuration healthy_env [("admin_groups", VList ["dba"])]
     alice_checked_world).1 = Return tt
  /\ (exists msg,
        (update_configuration healthy_env
           [("rbac_enabled", VBool false); ("admin_users", VBool true)]
           alice_checked_world).1
        = Raise (OtherException msg)).
Proof.
  split.
  - destruct (update_configuration_outcome healthy_env
                [("admin_groups", VList ["dba"])] alice_checked_world)
      as [H _].
    apply H. repeat constructor.
  - destruct (update_configuration_outcome healthy_env
                [("rbac_enabled", VBool false); ("admin_users", VBool true)]
                alice_checked_world) as [_ H].
    apply H. intros Hall.
    apply Forall_cons in Hall as [_ Hall].
    apply Forall_cons in Hall as [Hbad _]. vm_compute in Hbad. discriminate.
Defined.

Section UpdateEffect.

Variable env : Env.

(** One turn of the loop of [update_configuration]. *)
Local Abbreviation update_step key value m :=
  (if bool_decide (key = "admin_users")
   then let! v := to_set value in set_self (set_admin_users v m)
   else if bool_decide (key = "admin_groups")
   then let! v := to_set value in set_self (set_admin_groups v m)
   else if bool_decide (key = "admin_operations")
   then let! v := to_set value in set_self (set_admin_operations v m)
   else if bool_decide (key = "user_operations")
   then let! v := to_set value in set_self (set_user_operations v m)
   else if bool_decide (key = "rbac_enabled")
   then set_self (set_rbac_enabled (to_flag value) m)
   else ret tt).

Lemma update_step_other key value w o w1 :
  update_step key value (self w) w = (o, w1) ->
  (key <> "admin_users" -> admin_users (self w1) = admin_users (self w))
  /\ (key <> "admin_groups" -> admin_groups (self w1) = admin_groups (self w))
  /\ (key <> "admin_operations" ->
      admin_operations (self w1) = admin_operations (self w))
  /\ (key <> "user_operations" ->
      user_operations (self w1) = user_operations (self w))
  /\ (key <> "rbac_enabled" -> rbac_enabled (self w1) = rbac_enabled (self w)).
Proof.
  unfold to_set, bind, set_self, ret, raise.
  repeat case_bool_decide; destruct value; intros [= <- <-];
    repeat split; intros; simpl; congruence.
Qed.

Lemma update_step_same key value w w1 :
  update_step key value (self w) w = (Return tt, w1) ->
  (forall l, key = "admin_users" -> value = VList l ->
             admin_users (self w1) = list_to_set l)
  /\ (forall l, key = "admin_groups" -> value = VList l ->
                admin_groups (self w1) = list_to_set l)
  /\ (forall l, key = "admin_operations" -> value = VList l ->
                admin_operations (self w1) = list_to_set l)
  /\ (forall l, key = "user_operations" -> value = VList l ->
                user_operations (self w1) = list_to_set l)
  /\ (key = "rbac_enabled" -> rbac_enabled (self w1) = to_flag value).
Proof.
  unfold to_set, bind, set_self, ret, raise.
  repeat case_bool_decide; destruct value; intros [= <-];
    repeat split; intros; simplify_eq; done.
Qed.

(** A key that does not occur leaves its field alone. *)
Lemma updates_loop_absent items w o w' :
  updates_loop items w = (o, w') ->
  ("admin_users" ∉ items.*1 -> admin_users (self w') = admin_users (self w))
  /\ ("admin_groups" ∉ items.*1 ->
      admin_groups (self w') = admin_groups (self w))
  /\ ("admin_operations" ∉ items.*1 ->
      admin_operations (self w') = admin_operations (self w))
  /\ ("user_operations" ∉ items.*1 ->
      user_operations (self w') = user_operations (self w))
  /\ ("rbac_enabled" ∉ items.*1 ->
      rbac_enabled (self w') = rbac_enabled (self w)).
Proof.
  revert w. induction items as [|[key value] items IH]; intros w; simpl.
  - by intros [= <- <-].
  - unfold bind at 1. unfold get_self at 1.
    intros H. apply bind_inv in H as [(a & w1 & Hstep & H)|(e & Hstep & _)].
    + destruct (IH _ H) as (H1 & H2 & H3 & H4 & H5).
      destruct (update_step_other _ _ _ _ _ Hstep)
        as (S1 & S2 & S3 & S4 & S5).
      repeat split; intros Hnin; apply not_elem_of_cons in Hnin as [Hne Hnin].
      * rewrite (H1 Hnin). by apply S1.
      * rewrite (H2 Hnin). by apply S2.
      * rewrite (H3 Hnin). by apply S3.
      * rewrite (H4 Hnin). by apply S4.
      * rewrite (H5 Hnin). by apply S5.
    + destruct (update_step_other _ _ _ _ _ Hstep)
        as (S1 & S2 & S3 & S4 & S5).
      repeat split; intros Hnin; apply not_elem_of_cons in Hnin as [Hne Hnin].
      * by apply S1.
      * by apply S2.
      * by apply S3.
      * by apply S4.
      * by apply S5.
Qed.

(** A key that occurs once decides its field. *)
Lemma updates_loop_present items w w' :
  NoDup items.*1 ->
  updates_loop items w = (Return tt, w') ->
  (forall l, ("admin_users", VList l) ∈ items ->
             admin_users (self w') = list_to_set l)
  /\ (forall l, ("admin_groups", VList l) ∈ items ->
                admin_groups (self w') = list_to_set l)
  /\ (forall l, ("admin_operations", VList l) ∈ items ->
                admin_operations (self w') = list_to_set l)
  /\ (forall l, ("user_operations", VList l) ∈ items ->
                user_operations (self w') = list_to_set l)
  /\ (forall v, ("rbac_enabled", v) ∈ items ->
                rbac_enabled (self w') = to_flag v).
Proof.
  revert w. induction items as [|[key value] items IH]; intros w Hnd Hloop.
  { repeat split; intros ? Hin; by apply elem_of_nil in Hin. }
  simpl in Hnd. apply NoDup_cons in Hnd as [Hfresh Hnd].
  simpl in Hloop. unfold bind at 1 in Hloop. unfold get_self at 1 in Hloop.
  apply bind_inv in Hloop as [([] & w1 & Hstep & Hloop)|(e & _ & ?)];
    [|discriminate].
  destruct (IH _ Hnd Hloop) as (I1 & I2 & I3 & I4 & I5).
  destruct (updates_loop_absent _ _ _ _ Hloop) as (A1 & A2 & A3 & A4 & A5).
  destruct (update_step_same _ _ _ _ Hstep) as (S1 & S2 & S3 & S4 & S5).
  repeat split; intros x Hin; apply elem_of_cons in Hin as [[= <- <-]|Hin].
  - rewrite (A1 Hfresh). by apply S1.
  - by apply I1.
  - rewrite (A2 Hfresh). by apply S2.
  - by apply I2.
  - rewrite (A3 Hfresh). by apply S3.
  - by apply I3.
  - rewrite (A4 Hfresh). by apply S4.
  - by apply I4.
  - rewrite (A5 Hfresh). by apply S5.
  - by apply I5.
Qed.

(** X8. A completed [update_configuration] whose keys are distinct (as
    the keys of a dict are) replaces each listed set by the set of the
    given list, and [rbac_enabled] by the truth value of the given value;
    a field whose key is not among the updates keeps its value. *)
Theorem update_configuration_effect updates w w' :
  NoDup updates.*1 ->
  update_configuration env updates w = (Return tt, w') ->
  (forall l, ("admin_users", VList l) ∈ updates ->
             admin_users (self w') = list_to_set l)
  /\ (forall l, ("admin_groups", VList l) ∈ updates ->
                admin_groups (self w') = list_to_set l)
  /\ (forall l, ("admin_operations", VList l) ∈ updates ->
                admin_operations (self w') = list_to_set l)
  /\ (forall l, ("user_operations", VList l) ∈ updates ->
                user_operations (self w') = list_to_set l)
  /\ (forall v, ("rbac_enabled", v) ∈ updates ->
                rbac_enabled (self w') = to_flag v)
  /\ ("admin_users" ∉ updates.*1 ->
      admin_users (self w') = admin_users (self w))
  /\ ("admin_groups" ∉ updates.*1 ->
      admin_groups (self w') = admin_groups (self w))
  /\ ("admin_operations" ∉ updates.*1 ->
      admin_operations (self w') = admin_operations (self w))
  /\ ("user_operations" ∉ updates.*1 ->
      user_operations (self w') = user_operations (self w))
  /\ ("rbac_enabled" ∉ updates.*1 ->
      rbac_enabled (self w') = rbac_enabled (self w)).
Proof.
  intros Hnd Hrun. unfold update_configuration in Hrun.
  apply bind_inv in Hrun as [([] & w1 & Hloop & Hrun)|(e & _ & ?)];
    [|discriminate].
  assert (Hw' : self w' = set_group_membership_cache ∅ (self w1)).
  { revert Hrun. unfold bind, logger_info, emit, get_self, set_self. simpl.
    by intros [= <-]. }
  rewrite Hw'. simpl.
  destruct (updates_loop_present _ _ _ Hnd Hloop) as (P1 & P2 & P3 & P4 & P5).
  destruct (updates_loop_absent _ _ _ _ Hloop) as (A1 & A2 & A3 & A4 & A5).
  repeat split; assumption.
Qed.

End UpdateEffect.

(** Revoking every admin at run time: afterwards nobody is admin, cached
    resolutions notwithstanding. *)
Lemma update_configuration_effect_witness :
  is_user_admin healthy_env "U2" alice_checked_world
  = (Return true,
     (is_user_admin healthy_env "U2" alice_checked_world).2)
  /\ admin_users
       (self (update_configuration healthy_env
                [("admin_users", VList []); ("admin_groups", VList [])]
                alice_checked_world).2) = ∅.
Proof.
  split; [vm_compute; reflexivity|].
  destruct (update_configuration_effect healthy_env
              [("admin_users", VList []); ("admin_groups", VList [])]
              alice_checked_world
              (update_configuration healthy_env
                 [("admin_users", VList []); ("admin_groups", VList [])]
                 alice_checked_world).2) as (H & _).
  - decide_by_computation.
  - vm_compute. reflexivity.
  - rewrite (H []); [reflexivity|]. left.
Defined.

(** * Round trip through the group-membership cache *)

Section MembershipRoundTrip.

Variable env : Env.

(** The loop up to the first group with the handle, when the members call
    for it succeeds: the answer is cached with the time of insertion. *)
Lemma usergroups_loop_found pre x post u g key w members :
  no_handle g pre -> ug_handle x = g ->
  usergroups_users_list env (tick w) (ug_id x) = Return members ->
  gu_ok members = true ->
  usergroups_loop env (pre ++ x :: post) u g key w
  = (Return (Some (bool_decide (u ∈ gu_users members))),
     {| self :=
          set_group_membership_cache
            (<[key := {| me_is_member := bool_decide (u ∈ gu_users members);
                         me_timestamp := clock env (S (tick w)) |}]>
               (group_membership_cache (self w))) (self w);
        tick := S (S (tick w));
        calls := calls w ++ [CallUsergroupsUsersList (ug_id x)];
        logs := logs w |}).
Proof.
  intros Hpre Hx Hm Hok. induction Hpre as [|y pre Hy _ IH]; simpl.
  - rewrite (bool_decide_eq_true_2 _ Hx). unfold bind, slack.
    rewrite Hm, Hok. reflexivity.
  - by rewrite (bool_decide_eq_false_2 _ Hy).
Qed.

Lemma cached_membership_hit key w entry :
  group_membership_cache (self w) !! key = Some entry ->
  (clock env (tick w) - me_timestamp entry < cache_ttl (self w))%Q ->
  cached_membership env key w
  = (Return (Some (me_is_member entry)),
     {| self := self w; tick := S (tick w); calls := calls w;
        logs := logs w |}).
Proof.
  intros He Hlt. unfold cached_membership, bind, get_self, now_timestamp, ret.
  simpl. rewrite He. simpl. by rewrite (proj2 (Qltb_true _ _) Hlt).
Qed.

Lemma cached_membership_expired key w entry :
  group_membership_cache (self w) !! key = Some entry ->
  (cache_ttl (self w) <= clock env (tick w) - me_timestamp entry)%Q ->
  cached_membership env key w
  = (Return None,
     {| self := self w; tick := S (tick w); calls := calls w;
        logs := logs w |}).
Proof.
  intros He Hge. unfold cached_membership, bind, get_self, now_timestamp, ret.
  simpl. rewrite He. simpl. by rewrite (proj2 (Qltb_false _ _) Hge).
Qed.

(** X9. When a membership test misses the cache, [usergroups_list] lists
    a group with the handle and [usergroups_users_list] answers for the
    first such group, the answer, positive or negative, is returned and
    cached with its insertion time after exactly those two Slack calls.
    While that entry is cached and the TTL is 300 seconds, a test of the
    pair at a time with [now - insertedAt < 300] returns the cached answer
    without any Slack call, and one with [now - insertedAt >= 300] asks
    [usergroups_list] again. *)
Theorem membership_round_trip u g w w0 response pre x post members :
  cached_membership env (group_cache_key u g) w = (Return None, w0) ->
  usergroups_list env (tick w0) = Return response ->
  gl_ok response = true ->
  gl_usergroups response = pre ++ x :: post ->
  no_handle g pre -> ug_handle x = g ->
  usergroups_users_list env (S (tick w0)) (ug_id x) = Return members ->
  gu_ok members = true ->
  let key := group_cache_key u g in
  let answer := bool_decide (u ∈ gu_users members) in
  let cached := {| me_is_member := answer;
                   me_timestamp := clock env (S (S (tick w0))) |} in
  exists w1,
    is_user_in_group env u g w = (Return answer, w1)
    /\ group_membership_cache (self w1) !! key = Some cached
    /\ calls w1
       = calls w ++ [CallUsergroupsList; CallUsergroupsUsersList (ug_id x)]
    /\ forall w2,
         group_membership_cache (self w2) !! key = Some cached ->
         cache_ttl (self w2) = 300%Q ->
         ((clock env (tick w2) - me_timestamp cached < 300)%Q ->
          (is_user_in_group env u g w2).1 = Return answer
          /\ calls (is_user_in_group env u g w2).2 = calls w2)
         /\ ((300 <= clock env (tick w2) - me_timestamp cached)%Q ->
             exists rest,
               calls (is_user_in_group env u g w2).2
               = calls w2 ++ CallUsergroupsList :: rest).
Proof.
  intros Hmiss Hresp Hok Hgs Hpre Hx Hmem Hmok key answer cached.
  pose proof (cached_membership_calls env _ _ _ _ Hmiss) as Hc0.
  eexists. split; [|split; [|split]].
  - unfold is_user_in_group. rewrite (bind_Return _ _ _ _ _ Hmiss).
    unfold query_membership, except_SlackApiError, bind at 1 2.
    unfold slack at 1. rewrite Hresp, Hok, Hgs. simpl.
    rewrite (usergroups_loop_found pre x post u g _ _ members) by done.
    simpl. reflexivity.
  - simpl. apply lookup_insert_eq.
  - simpl. by rewrite Hc0, <- app_assoc.
  - intros w2 He Httl. split.
    + intros Hlt. unfold is_user_in_group.
      rewrite (bind_Return _ _ _ _ _
                 (cached_membership_hit key w2 cached He
                    ltac:(by rewrite Httl))).
      done.
    + intros Hge. unfold is_user_in_group.
      rewrite (bind_Return _ _ _ _ _
                 (cached_membership_expired key w2 cached He
                    ltac:(by rewrite Httl))).
      unfold bind.
      match goal with |- context [query_membership env u g ?k ?w3] =>
        destruct (query_membership_calls env u g k w3) as (rest & Hc);
        destruct (query_membership env u g k w3) as [[o|e] w4] end;
        simpl in *; eauto.
Qed.

End MembershipRoundTrip.

Lemma membership_round_trip_witness :
  (is_user_in_group staffed_env "U1" "dba" scenario_world).1 = Return false
  /\ (is_user_in_group staffed_env "U1" "dba" dba_cached_world).1
     = Return false
  /\ calls (is_user_in_group staffed_env "U1" "dba" dba_cached_world).2
     = calls dba_cached_world.
Proof.
  destruct (membership_round_trip staffed_env "U1" "dba" scenario_world
              scenario_world
              {| gl_ok := true; gl_usergroups := [dba_group] |}
              [] dba_group [] {| gu_ok := true; gu_users := ["U2"] |})
    as (w1 & H1 & _ & _ & H2).
  - vm_compute. reflexivity.
  - reflexivity.
  - reflexivity.
  - reflexivity.
  - constructor.
  - reflexivity.
  - reflexivity.
  - reflexivity.
  - split; [by rewrite H1|].
    apply (H2 dba_cached_world).
    + vm_compute. reflexivity.
    + reflexivity.
    + vm_compute. reflexivity.
Defined.

(** * Cache keys of (identity, group) pairs *)

(** X10. Two (identity, group) pairs whose identities contain no colon
    never share a key of the group-membership cache. *)
Theorem group_cache_key_injective u g u' g' :
  contains ":" u = false -> contains ":" u' = false ->
  group_cache_key u g = group_cache_key u' g' ->
  u = u' /\ g = g'.
Proof.
  unfold group_cache_key. revert u'.
  induction u as [|a u IH]; intros [|b u'] Hu Hu' Heq; simpl in *.
  - inversion Heq. done.
  - inversion Heq as [[Hb Htail]]. subst b.
    by rewrite bool_decide_eq_true_2 in Hu'.
  - inversion Heq as [[Ha Htail]]. subst a.
    by rewrite bool_decide_eq_true_2 in Hu.
  - inversion Heq as [[Hab Htail]].
    apply orb_false_iff in Hu as [_ Hu]. apply orb_false_iff in Hu' as [_ Hu'].
    destruct (IH u' Hu Hu' Htail) as [-> ->]. done.
Qed.

Lemma group_cache_key_injective_witness :
  contains ":" "U1" = false
  /\ group_cache_key "U1" "dba" = "U1:dba"
  /\ ("U1" = "U1" /\ "dba" = "dba").
Proof.
  split; [reflexivity|]. split; [reflexivity|].
  apply (group_cache_key_injective "U1" "dba" "U1" "dba"); reflexivity.
Defined.

(** * Delivery of denial alerts *)

Section Delivery.

Variable env : Env.

Lemma notify_loop_delivers l msg w :
  posting_fails_cleanly env ->
  exists w',
    notify_loop env l msg w = (Return tt, w')
    /\ calls w' = calls w ++ map (post_to msg) l
    /\ self w' = self w.
Proof.
  intros Hclean. revert w. induction l as [|x l IH]; intros w; simpl.
  - exists w. by rewrite app_nil_r.
  - unfold bind at 1. unfold except_SlackApiError, slack, logger_error, emit.
    destruct (chat_postMessage env (tick w) x msg) as [[]|[m|m]] eqn:E.
    + match goal with |- context [notify_loop env l msg ?w1] =>
        destruct (IH w1) as (w' & -> & Hc & Hs) end.
      exists w'. simpl in *. by rewrite Hc, <- app_assoc.
    + match goal with |- context [notify_loop env l msg ?w1] =>
        destruct (IH w1) as (w' & -> & Hc & Hs) end.
      exists w'. simpl in *. by rewrite Hc, <- app_assoc.
    + destruct (Hclean _ _ _ _ E).
Qed.

(** X11. When [users_info] answers and [chat_postMessage] fails with
    [SlackApiError] only, one denial alert is posted to every entry of
    [admin_users], each exactly once and all with the same text: a failed
    post to one admin does not stop the posts to the others. *)
Theorem notify_reaches_every_admin u op w info :
  users_info env (tick w) u = Return info ->
  posting_fails_cleanly env ->
  let username := if ui_ok info then ui_user_name info else u in
  let message :=
    denied_message username u op (strftime env (clock env (S (tick w)))) in
  (notify_admin_of_denied_access env u op w).1 = Return tt
  /\ calls (notify_admin_of_denied_access env u op w).2
     = calls w ++ CallUsersInfo u
         :: map (post_to message) (elements (admin_users (self w))).
Proof.
  intros Hinfo Hclean username message.
  unfold notify_admin_of_denied_access, except_Exception, bind, slack.
  rewrite Hinfo. simpl.
  match goal with |- context [notify_loop env ?l ?msg ?w1] =>
    destruct (notify_loop_delivers l msg w1 Hclean) as (w' & -> & Hc & _) end.
  simpl in *. by rewrite Hc, <- app_assoc.
Qed.

(** X12. When [users_info] raises, whatever the exception, the alert is
    lost: no message is posted to any admin, one error record is logged,
    and the function still returns normally. *)
Theorem notify_lost_without_user_info u op w e :
  users_info env (tick w) u = Raise e ->
  (notify_admin_of_denied_access env u op w).1 = Return tt
  /\ calls (notify_admin_of_denied_access env u op w).2
     = calls w ++ [CallUsersInfo u]
  /\ logs (notify_admin_of_denied_access env u op w).2
     = logs w ++ [LogError ("Error in admin notification: " +:+ exn_str e)].
Proof.
  intros Hinfo.
  unfold notify_admin_of_denied_access, except_Exception, bind, slack.
  rewrite Hinfo. done.
Qed.

(** * Decisions taken without the directory *)

(** X13. A decision by the RBAC-disabled rule or the self-service rule,
    and the admission of an identity that is itself an entry of
    [admin_users], involve no Slack call and no clock reading, and leave
    the manager as it was. *)
Theorem quiet_decisions w u op t :
  settled_early (self w) u op t = true \/ u ∈ admin_users (self w) ->
  calls (check_user_permission env u op t w).2 = calls w
  /\ tick (check_user_permission env u op t w).2 = tick w
  /\ self (check_user_permission env u op t w).2 = self w.
Proof.
  assert (Hlog : calls (attempt_logged u op w) = calls w
                 /\ tick (attempt_logged u op w) = tick w
                 /\ self (attempt_logged u op w) = self w).
  { unfold attempt_logged. by destruct (log_access_attempts (self w)). }
  intros H. rewrite check_user_permission_unfold.
  destruct (settled_early (self w) u op t) eqn:Hs.
  - simpl. by destruct (rbac_enabled (self w)).
  - destruct H as [H|H]; [discriminate|].
    rewrite is_user_admin_direct by (by rewrite (proj2 (proj2 Hlog))).
    done.
Qed.

End Delivery.

Lemma notify_reaches_every_admin_witness :
  calls (notify_admin_of_denied_access flaky_env "U1" "create_cluster"
           listed_world).2
  = CallUsersInfo "U1"
      :: map (post_to
                (denied_message "someone" "U1" "create_cluster"
                   "2024-01-01 00:00:00"))
           (elements (admin_users (self listed_world))).
Proof.
  destruct (notify_reaches_every_admin flaky_env "U1" "create_cluster"
              listed_world {| ui_ok := true; ui_user_name := "someone" |})
    as [_ H].
  - reflexivity.
  - intros n channel text e. simpl. case_bool_decide; [|discriminate].
    intros [= <-]. exact I.
  - exact H.
Defined.

Lemma notify_lost_without_user_info_witness :
  calls (notify_admin_of_denied_access outage_env "U1" "create_cluster"
           listed_world).2
  = [CallUsersInfo "U1"].
Proof.
  destruct (notify_lost_without_user_info outage_env "U1" "create_cluster"
              listed_world service_unavailable) as (_ & H & _).
  - reflexivity.
  - exact H.
Defined.

Lemma quiet_decisions_witness :
  calls (check_user_permission healthy_env "U0000000001" "create_cluster"
           None listed_world).2
  = calls listed_world.
Proof.
  destruct (quiet_decisions healthy_env listed_world "U0000000001"
              "create_cluster" None) as (H & _).
  - right. decide_by_computation.
  - exact H.
Defined.

(** * What a permission check may change *)

Global Instance grows_preorder : PreOrder grows.
Proof.
  split.
  - intros w. repeat split; done.
  - intros w1 w2 w3 (P1 & C1 & T1 & U1 & G1) (P2 & C2 & T2 & U2 & G2).
    repeat split; [congruence|by etrans|lia|by etrans|by etrans].
Qed.

Section CheckFrame.

Variable env : Env.

(** X14. Whatever Slack answers, a permission check keeps the policy
    (every field of the manager but the two caches), only appends to the
    Slack calls issued, and removes no entry from either cache. *)
Theorem check_user_permission_grows u op t w :
  grows w (check_user_permission env u op t w).2.
Proof.
  apply (frame_check_user_permission env grows).
  - intros w0. repeat split; simpl; try done. lia.
  - intros A c answer w0. repeat split; simpl; try done; [|lia].
    by apply prefix_app_r.
  - intros r w0. repeat split; simpl; try done.
  - intros username uid w0. unfold cache_user_id.
    destruct uid as [uid|]; [|reflexivity].
    destruct (truthy (Some uid)); [|reflexivity].
    repeat split; simpl; try done; [lia|].
    rewrite dom_insert. set_solver.
  - intros u' g b w0. repeat split; simpl; try done; [lia|].
    rewrite dom_insert. set_solver.
Qed.

End CheckFrame.

(** * Resolution of usernames *)

(** X15. The list loop of [resolve_username_to_user_id] returns the id of
    the first member that is not deleted and matches the username: a
    deleted member is never resolved, an earlier live match wins over a
    later one, and the loop yields nothing exactly when no live member
    matches. *)
Theorem first_matching_user_spec members username :
  match first_matching_user members username with
  | Some uid =>
      exists pre user post,
        members = pre ++ user :: post
        /\ Forall (fun x => ~ live_match username x) pre
        /\ live_match username user
        /\ uid = user_ident user
  | None => Forall (fun x => ~ live_match username x) members
  end.
Proof.
  induction members as [|x members IH]; simpl; [constructor|].
  destruct (negb (user_deleted x) && username_matches x username) eqn:E.
  - apply andb_true_iff in E as [Hd Hm]. apply negb_true_iff in Hd.
    exists [], x, members. repeat split; done.
  - assert (Hx : ~ live_match username x).
    { intros [Hd Hm]. rewrite Hd, Hm in E. discriminate. }
    destruct (first_matching_user members username) as [uid|].
    + destruct IH as (pre & user & post & -> & Hpre & Hlive & ->).
      exists (x :: pre), user, post. repeat split; try done.
      * by constructor.
      * apply Hlive.
      * apply Hlive.
    + by constructor.
Qed.

Section EmailLookup.

Variable env : Env.

(** X16. [resolve_username_to_user_id] always asks [users_list] first, and
    goes on to [users_lookupByEmail] exactly when [users_list] answered,
    the list gave no live match and the username contains an at sign; it
    issues no other Slack call. *)
Theorem email_lookup_iff username w :
  calls (resolve_username_to_user_id env username w).2
  = calls w ++ CallUsersList
      :: (if asks_email env username (tick w)
          then [CallUsersLookupByEmail username] else []).
Proof.
  unfold resolve_username_to_user_id, asks_email, except_SlackApiError,
    bind, slack.
  destruct (users_list env (tick w)) as [response|[msg|msg]]; simpl;
    [|done..].
  destruct (if ul_ok response then _ else _) as [uid|]; simpl; [done|].
  destruct (contains "@" username); simpl; [|done].
  destruct (users_lookupByEmail env _ username) as [r|[msg|msg]]; simpl.
  - destruct (le_ok r); simpl; by rewrite <- app_assoc.
  - by rewrite <- app_assoc.
  - by rewrite <- app_assoc.
Qed.

Lemma lstrip_blank_not_canonical entry :
  lstrip "@" entry = "" -> canonical_id entry = false.
Proof.
  destruct entry as [|a entry]; [done|]. simpl.
  case_bool_decide as Ha; [|discriminate]. intros _. subst a. done.
Qed.

(** X17. An admin entry that is empty or made of at signs only (as a
    trailing comma in [ADMIN_USERS] leaves one) is looked up as the empty
    username, which the comparison of real names matches against any
    member without a [real_name]: when the members listed before are
    deleted, the entry resolves to the first live member that lacks a
    [real_name], and that member is cached as its resolution. *)
Theorem blank_entry_resolves entry w w0 response pre user post :
  lstrip "@" entry = "" ->
  cached_user_id env (username_cache_key "") w = (Return None, w0) ->
  users_list env (tick w0) = Return response ->
  ul_ok response = true ->
  ul_members response = pre ++ user :: post ->
  Forall (fun x => user_deleted x = true) pre ->
  user_deleted user = false ->
  user_real_name user = None ->
  user_ident user <> "" ->
  (resolve_admin_entry_to_user_id env entry w).1
  = Return (Some (user_ident user))
  /\ exists stamp,
       username_to_id_cache
         (self (resolve_admin_entry_to_user_id env entry w).2)
         !! username_cache_key ""
       = Some {| ue_user_id := user_ident user; ue_timestamp := stamp |}.
Proof.
  intros Hblank Hmiss Hlist Hok Hmembers Hpre Hlive Hname Hid.
  assert (Hfirst : first_matching_user (ul_members response) ""
                   = Some (user_ident user)).
  { rewrite Hmembers. clear Hmembers.
    induction Hpre as [|x pre Hx _ IH]; simpl.
    - rewrite Hlive. unfold username_matches. rewrite Hname. simpl.
      by rewrite orb_true_r.
    - by rewrite Hx. }
  unfold resolve_admin_entry_to_user_id.
  rewrite (lstrip_blank_not_canonical _ Hblank), Hblank.
  rewrite (bind_Return _ _ _ _ _ Hmiss).
  assert (Hres : resolve_username_to_user_id env "" w0
                 = (Return (Some (user_ident user)),
                    {| self := self w0; tick := S (tick w0);
                       calls := calls w0 ++ [CallUsersList];
                       logs := logs w0 |})).
  { unfold resolve_username_to_user_id, except_SlackApiError, bind, slack.
    rewrite Hlist, Hok, Hfirst. reflexivity. }
  rewrite (bind_Return _ _ _ _ _ Hres).
  unfold cache_user_id, truthy. rewrite (bool_decide_eq_false_2 _ Hid).
  simpl. split; [done|]. eexists. apply lookup_insert_eq.
Qed.

End EmailLookup.

Lemma blank_entry_resolves_witness :
  (resolve_admin_entry_to_user_id unnamed_env "@" scenario_world).1
  = Return (Some "B7").
Proof.
  destruct (blank_entry_resolves unnamed_env "@" scenario_world
              scenario_world
              {| ul_ok := true; ul_members := [unnamed_bot; alice] |}
              [] unnamed_bot [alice]) as [H _].
  - reflexivity.
  - vm_compute. reflexivity.
  - reflexivity.
  - reflexivity.
  - reflexivity.
  - constructor.
  - reflexivity.
  - reflexivity.
  - discriminate.
  - exact H.
Defined.

(** * Admin lists from the environment *)

Lemma split_nonempty c s : split c s <> [].
Proof.
  destruct s as [|a s]; simpl; [done|].
  case_bool_decide; [done|]. by destruct (split c s).
Qed.

Lemma join_split c s : join c (split c s) = s.
Proof.
  induction s as [|a s IH]; simpl; [done|].
  case_bool_decide as Ha.
  - subst a. pose proof (split_nonempty c s) as Hne.
    destruct (split c s) as [|p ps]; [done|]. simpl in *. by rewrite IH.
  - pose proof (split_nonempty c s) as Hne.
    destruct (split c s) as [|p ps]; [done|].
    destruct ps as [|q ps]; simpl in *; by rewrite <- IH.
Qed.

Lemma split_pieces c s : Forall (fun p => contains c p = false) (split c s).
Proof.
  induction s as [|a s IH]; simpl; [by repeat constructor|].
  case_bool_decide as Ha; [by constructor|].
  pose proof (split_nonempty c s) as Hne.
  destruct (split c s) as [|p ps]; [done|].
  apply Forall_cons in IH as [Hp Hps]. constructor; [|done].
  simpl. by rewrite (bool_decide_eq_false_2 _ Ha).
Qed.

Lemma split_trailing c s :
  exists pre, pre <> [] /\ split c (s +:+ String c "") = pre ++ [""].
Proof.
  induction s as [|a s IH]; simpl.
  - rewrite bool_decide_eq_true_2 by done. by exists [""].
  - destruct IH as (pre & Hne & ->). case_bool_decide.
    + by exists ("" :: pre).
    + destruct pre as [|p pre]; [done|]. simpl. by exists (String a p :: pre).
Qed.

(** X18. The admin entries read from an environment variable are the
    pieces of its value between commas, verbatim: joining them with commas
    gives the value back, no piece contains a comma, and nothing is
    trimmed or dropped, so a value that ends with a comma contributes the
    empty entry.  An unset or empty variable gives no entry. *)
Theorem getenv_list_round_trip getenv name :
  match getenv name with
  | Some value =>
      if bool_decide (value = "") then getenv_list getenv name = []
      else join "," (getenv_list getenv name) = value
           /\ Forall (fun p => contains "," p = false)
                     (getenv_list getenv name)
           /\ (forall s, value = s +:+ "," ->
                         "" ∈ getenv_list getenv name)
  | None => getenv_list getenv name = []
  end.
Proof.
  unfold getenv_list. destruct (getenv name) as [value|]; [|done].
  case_bool_decide as Hv; [done|].
  split; [apply join_split|]. split; [apply split_pieces|].
  intros s ->. destruct (split_trailing "," s) as (pre & _ & ->).
  apply elem_of_app. right. left.
Qed.

Lemma getenv_list_round_trip_witness :
  "" ∈ getenv_list (fun _ => Some "alice,") "ADMIN_USERS".
Proof.
  pose proof (getenv_list_round_trip (fun _ => Some "alice,") "ADMIN_USERS")
    as H.
  simpl in H. destruct H as (_ & _ & H). by apply (H "alice").
Defined.

(** * The admin roster *)

Section Roster.

Variable users_info_profile : nat -> string -> Outcome UsersInfoProfile.

Hypothesis lookup_fails_cleanly :
  forall n user e, users_info_profile n user = Raise e -> is_SlackApiError e.

Lemma recorded_skip n x users a :
  (forall user_info,
     users_info_profile n x = Return user_info -> up_ok user_info = false) ->
  recorded users_info_profile n (x :: users) a
  <-> recorded users_info_profile (S n) users a.
Proof.
  intros Hskip. split.
  - intros (i & u & info & Hi & Hinfo & Hok & ->).
    destruct i as [|i]; simpl in Hi.
    + injection Hi as <-. rewrite Nat.add_0_r in Hinfo.
      rewrite (Hskip _ Hinfo) in Hok. discriminate.
    + exists i, u, info.
      by replace (S n + i) with (n + S i) by lia.
  - intros (i & u & info & Hi & Hinfo & Hok & ->).
    exists (S i), u, info.
    by replace (n + S i) with (S n + i) by lia.
Qed.

Lemma recorded_keep n x users user_info a :
  users_info_profile n x = Return user_info -> up_ok user_info = true ->
  recorded users_info_profile n (x :: users) a
  <-> a = direct_info x user_info
      \/ recorded users_info_profile (S n) users a.
Proof.
  intros Hx Hok. split.
  - intros (i & u & info & Hi & Hinfo & Hok' & ->).
    destruct i as [|i]; simpl in Hi.
    + injection Hi as <-. rewrite Nat.add_0_r, Hx in Hinfo.
      injection Hinfo as <-. by left.
    + right. exists i, u, info.
      by replace (S n + i) with (n + S i) by lia.
  - intros [->|(i & u & info & Hi & Hinfo & Hok' & ->)].
    + exists 0, x, user_info. by rewrite Nat.add_0_r.
    + exists (S i), u, info.
    by replace (n + S i) with (S n + i) by lia.
Qed.

Lemma admin_users_loop_spec users acc w :
  exists direct w',
    admin_users_loop users_info_profile users acc w
    = (Return (acc ++ direct), w')
    /\ Forall (fun a => ai_type a = "direct") direct
    /\ map ai_user_id direct `sublist_of` users
    /\ (forall a, a ∈ direct <-> recorded users_info_profile (tick w) users a)
    /\ calls w' = calls w ++ map CallUsersInfo users
    /\ self w' = self w.
Proof.
  revert acc w. induction users as [|x users IH]; intros acc w; simpl.
  - exists [], w. rewrite !app_nil_r. repeat split; try done.
    + intros H. by apply elem_of_nil in H.
    + intros (i & u & info & Hi & _). by destruct i.
  - unfold bind at 1. unfold except_SlackApiError, bind, slack, logger_error,
      emit, ret.
    destruct (users_info_profile (tick w) x) as [info|[msg|msg]] eqn:E; simpl.
    + destruct (up_ok info) eqn:Hok; simpl.
      * match goal with |- context [admin_users_loop _ users ?acc1 ?w1] =>
          destruct (IH acc1 w1)
            as (direct & w' & -> & Hd & Hsub & Hrec & Hc & Hs)
        end.
        exists (direct_info x info :: direct), w'. rewrite <- app_assoc.
        split; [done|]. split; [|split; [|split; [|split]]].
        -- by constructor.
        -- simpl. by apply sublist_skip.
        -- intros a. rewrite elem_of_cons, Hrec.
           symmetry. by apply recorded_keep.
        -- simpl in Hc. by rewrite Hc, <- app_assoc.
        -- done.
      * match goal with |- context [admin_users_loop _ users ?acc1 ?w1] =>
          destruct (IH acc1 w1)
            as (direct & w' & -> & Hd & Hsub & Hrec & Hc & Hs)
        end.
        exists direct, w'. split; [done|]. split; [|split; [|split; [|split]]].
        -- done.
        -- by apply sublist_cons.
        -- intros a. rewrite Hrec. symmetry. apply recorded_skip.
           intros info' Hinfo'. congruence.
        -- simpl in Hc. by rewrite Hc, <- app_assoc.
        -- done.
    + match goal with |- context [admin_users_loop _ users ?acc1 ?w1] =>
        destruct (IH acc1 w1)
          as (direct & w' & -> & Hd & Hsub & Hrec & Hc & Hs)
      end.
      exists direct, w'. split; [done|]. split; [|split; [|split; [|split]]].
      * done.
      * by apply sublist_cons.
      * intros a. rewrite Hrec. symmetry. apply recorded_skip.
        intros info' Hinfo'. congruence.
      * simpl in Hc. by rewrite Hc, <- app_assoc.
      * done.
    + destruct (lookup_fails_cleanly _ _ _ E).
Qed.

(** X19. When [users_info] fails with [SlackApiError] only,
    [get_admin_users_info] returns normally: its result is a list of
    "direct" records followed by one "group" record for every admin group,
    which needs no lookup and is therefore never missing.  The direct
    records name entries of [admin_users], in the order the entries are
    visited and at most one per entry; an entry has a record exactly when
    its lookup answers ok, and the record carries the name and real name
    of that answer: an entry whose lookup fails or answers not ok is left
    out without losing the others.  The call issues one [users_info] call
    per entry of [admin_users], passing the entry as it stands, and leaves
    the manager unchanged. *)
Theorem get_admin_users_info_spec w :
  exists direct w',
    get_admin_users_info users_info_profile w
    = (Return (direct
               ++ map group_info (elements (admin_groups (self w)))), w')
    /\ Forall (fun a => ai_type a = "direct"
                        /\ ai_user_id a ∈ admin_users (self w)) direct
    /\ map ai_user_id direct `sublist_of` elements (admin_users (self w))
    /\ NoDup (map ai_user_id direct)
    /\ length direct <= size (admin_users (self w))
    /\ (forall a,
          a ∈ direct
          <-> exists i user_id user_info,
                elements (admin_users (self w)) !! i = Some user_id
                /\ users_info_profile (tick w + i) user_id = Return user_info
                /\ up_ok user_info = true
                /\ a = direct_info user_id user_info)
    /\ calls w'
       = calls w ++ map CallUsersInfo (elements (admin_users (self w)))
    /\ self w' = self w.
Proof.
  unfold get_admin_users_info, bind at 1, get_self at 1.
  destruct (admin_users_loop_spec (elements (admin_users (self w))) [] w)
    as (direct & w' & Hrun & Hd & Hsub & Hrec & Hc & Hs).
  rewrite (bind_Return _ _ _ _ _ Hrun). unfold bind, get_self, ret.
  simpl. rewrite Hs. exists direct, w'.
  split; [done|]. split; [|split; [done|split; [|split; [|split]]]].
  - apply Forall_forall. intros a Ha. split.
    + by apply (proj1 (Forall_forall _ _) Hd).
    + apply elem_of_elements. eapply elem_of_sublist; [|exact Hsub].
      by apply (list_elem_of_fmap_2 ai_user_id).
  - eapply sublist_NoDup; [|exact Hsub]. apply NoDup_elements.
  - apply sublist_length in Hsub. rewrite length_map in Hsub.
    unfold size, set_size. simpl. exact Hsub.
  - exact Hrec.
  - done.
Qed.

End Roster.

Lemma get_admin_users_info_spec_witness :
  exists direct,
    (get_admin_users_info roster_lookup listed_world).1
    = Return (direct
              ++ map group_info (elements (admin_groups (self listed_world))))
    /\ NoDup (map ai_user_id direct)
    /\ length direct <= size (admin_users (self listed_world)).
Proof.
  destruct (get_admin_users_info_spec roster_lookup) with (w := listed_world)
    as (direct & w' & H & _ & _ & Hnd & Hlen & _).
  - intros n user e. unfold roster_lookup. case_bool_decide; [discriminate|].
    intros [= <-]. exact I.
  - exists direct. split; [exact (f_equal fst H)|]. split; [exact Hnd|].
    exact Hlen.
Defined.

(** * Permission checks after a failed load *)

Lemma init_not_loadable import_config getenv :
  ~ loadable import_config ->
  self (init import_config getenv) = secure_manager.
Proof.
  destruct import_config as [[en us gs aos uos sos nt lg]| |msg]; intros Hnl.
  - destruct us as [[?|?]|], gs as [[?|?]|], aos as [[?|?]|],
      uos as [[?|?]|], sos as [[?|?]|];
      try reflexivity; exfalso; apply Hnl; repeat split.
  - exfalso. by apply Hnl.
  - reflexivity.
Qed.

(** X20. After a failed load, and with no target given, every identity
    is treated alike, whatever the directory says: the two operations of
    the minimal allowlist ([list_clusters], [help]) are allowed as user
    operations, [create_cluster] and [create_user] are denied for want of
    admin privileges, and everything else is denied as unknown. *)
Theorem failed_load_decisions import_config getenv env u op :
  ~ loadable import_config ->
  (check_user_permission env u op None (init import_config getenv)).1
  = Return
      (if bool_decide (op ∈ user_operations secure_manager)
       then {| allowed := true; reason := "User operation" |}
       else if bool_decide (op ∈ admin_operations secure_manager)
       then {| allowed := false; reason := "Admin privileges required" |}
       else {| allowed := false; reason := "Unknown operation" |}).
Proof.
  intros Hnl. pose proof (init_not_loadable _ getenv Hnl) as Hself.
  rewrite check_user_permission_unfold, Hself.
  assert (Hs : settled_early secure_manager u op None = false).
  { unfold settled_early. simpl. apply bool_decide_eq_false_2. by intros [_ ?]. }
  rewrite Hs.
  assert (Hadmin : exists w1,
            is_user_admin env u (attempt_logged u op (init import_config getenv))
            = (Return false, w1)).
  { eexists. unfold is_user_admin, bind, get_self.
    assert (Hlog : self (attempt_logged u op (init import_config getenv))
                   = secure_manager).
    { unfold attempt_logged. rewrite Hself. done. }
    rewrite Hlog. simpl. rewrite elements_empty.
    rewrite bool_decide_eq_false_2 by set_solver. simpl.
    rewrite Hlog. simpl. rewrite elements_empty. reflexivity. }
  destruct Hadmin as (w1 & ->). cbn [fst].
  unfold settled_early in Hs. apply orb_false_iff in Hs as [_ Hss].
  unfold first_matching_rule. rewrite Hss. reflexivity.
Qed.

Lemma failed_load_decisions_witness :
  (check_user_permission healthy_env "U2" "create_cluster" None
     (init (ConfigModule mistyped_config) (fun _ => None))).1
  = Return {| allowed := false; reason := "Admin privileges required" |}.
Proof.
  rewrite (failed_load_decisions (ConfigModule mistyped_config)
             (fun _ => None) healthy_env "U2" "create_cluster").
  - reflexivity.
  - intros (H & _). exact H.
Defined.
